(** * Bug-Tracker: the query, filter, pagination, analytics and export engine

    A shallow embedding of [bug-tracker-server/src/routes/bugs.ts], of the
    Bug schema ([models/Bug]) and of the client's calls to them
    ([utils/api]), with the properties the specification states about them
    and further properties of the handlers.

    Conventions.
    - JavaScript strings are [string]s of bytes; case folding is the ASCII one.
    - JavaScript numbers that hold counts, pages and timestamps are [Z]
      (all values met here are integers far below 2^53).
    - [req.query] and the Mongo filter object are [gmap]s keyed by the
      property name, so that an assignment [filter.k = v] is [<[k:=v]>].
      The listing is stated on queries whose parameters are strings; the
      export, which validates nothing, also on the arrays and objects
      that the query parser builds ([exportBugsRaw]).
    - The local time of the process goes through its time zone, an input
      ([JsDate.TimeZone]).
    - The document store is a list of bug documents and a list of users.
    - What the MongoDB server and Mongoose decide and this repository does
      not (compiling a user-supplied regular expression, casting a string
      to an ObjectId) is an interface, [StoreEngine]; the general theorems
      hold for every engine, the concrete evaluations use [fragment_engine].
    - The checks of express-validator follow validator.js; request bodies
      are taken after their validator chain, as typed records. *)

From Stdlib Require Import ZArith Ascii String List Bool Lia DecimalString DecimalPos.
From stdpp Require Import base decidable option list gmap strings fin_maps sorting.

Local Open Scope string_scope.
Local Open Scope Z_scope.

(** ** JavaScript string primitives used by the handlers *)

Module Js.

Definition dquote : ascii := Ascii false true false false false true false false.
Definition newline : ascii := Ascii false true false true false false false false.
Definition comma : ascii := ","%char.

(** [s.includes(c)] for a one-character needle. *)
Fixpoint includes (c : ascii) (s : string) : bool :=
  match s with
  | EmptyString => false
  | String a r => if Ascii.eqb a c then true else includes c r
  end.

(** [s.replace(/c/g, by)]: every occurrence of the character [c]. *)
Fixpoint replaceAll (c : ascii) (by_ : string) (s : string) : string :=
  match s with
  | EmptyString => EmptyString
  | String a r =>
      if Ascii.eqb a c then by_ +:+ replaceAll c by_ r
      else String a (replaceAll c by_ r)
  end.

(** [xs.join(sep)]. *)
Fixpoint join (sep : string) (xs : list string) : string :=
  match xs with
  | [] => ""
  | [x] => x
  | x :: r => x +:+ sep +:+ join sep r
  end.

(** A JavaScript string is truthy iff it is not empty. *)
Definition truthy (s : string) : bool :=
  match s with EmptyString => false | _ => true end.

Definition is_digit (c : ascii) : bool :=
  let n := nat_of_ascii c in (48 <=? n)%nat && (n <=? 57)%nat.

Definition digit_val (c : ascii) : Z := Z.of_nat (nat_of_ascii c) - 48.

Fixpoint all_digits (s : string) : bool :=
  match s with
  | EmptyString => true
  | String c r => is_digit c && all_digits r
  end.

(** Value of the longest prefix of decimal digits, most significant first. *)
Fixpoint digits_prefix (acc : Z) (s : string) : Z :=
  match s with
  | EmptyString => acc
  | String c r => if is_digit c then digits_prefix (10 * acc + digit_val c) r else acc
  end.

Definition starts_with_digit (s : string) : bool :=
  match s with String c _ => is_digit c | EmptyString => false end.

(** [parseInt(s)] in radix 10: an optional sign, then the longest run of
    digits; [None] is NaN.  Leading white space and the [0x] prefix are
    not modelled: every string that reaches [parseInt] in the handlers
    has passed [isInt].  The value is exact, as it is in JavaScript for a
    safe integer (beyond 2^53 JavaScript rounds). *)
Definition parseInt (s : string) : option Z :=
  match s with
  | String "-"%char r =>
      if starts_with_digit r then Some (- digits_prefix 0 r) else None
  | String "+"%char r =>
      if starts_with_digit r then Some (digits_prefix 0 r) else None
  | _ => if starts_with_digit s then Some (digits_prefix 0 s) else None
  end.

(** [parseInt(x) || d] where [x] may be [undefined]: NaN and 0 are falsy. *)
Definition parseIntOr (x : option string) (d : Z) : Z :=
  match x ≫= parseInt with
  | Some 0 | None => d
  | Some n => n
  end.

(** ASCII case folding, the effect of the [i] option on ASCII text. *)
Definition lower (c : ascii) : ascii :=
  let n := nat_of_ascii c in
  if (65 <=? n)%nat && (n <=? 90)%nat then ascii_of_nat (n + 32) else c.

Definition eqb_ci (a b : ascii) : bool := Ascii.eqb (lower a) (lower b).

(** [pre] is a prefix of [s] up to case. *)
Fixpoint prefix_ci (pre s : string) : bool :=
  match pre, s with
  | EmptyString, _ => true
  | String a p, String b r => eqb_ci a b && prefix_ci p r
  | String _ _, EmptyString => false
  end.

(** [needle] occurs in [s] up to case: the meaning of a substring search. *)
Fixpoint substring_ci (needle s : string) : bool :=
  prefix_ci needle s ||
  match s with
  | EmptyString => false
  | String _ r => substring_ci needle r
  end.

(** [String(n)] and [n.toString()] for a safe integer, one of magnitude
    below 2^53: the decimal digits.  Beyond, a JavaScript number is a
    rounded value, written in exponent form from 10^21 on; the statements
    that depend on the rendering of a number that the caller chooses
    carry the bound. *)
Definition number_to_string (n : Z) : string := NilZero.string_of_int (Z.to_int n).

(** The decimal rendering with a fixed number of digits, which is
    [String(n).padStart(width, '0')] for a non-negative [n] that fits. *)
Definition digit_char (d : Z) : ascii := ascii_of_nat (Z.to_nat (48 + d mod 10)).

Fixpoint fixed_digits (width : nat) (n : Z) : string :=
  match width with
  | O => ""
  | S w => fixed_digits w (n / 10) +:+ String (digit_char n) ""
  end.

End Js.

(** ** Dates

    A [Date] is its time value, the milliseconds since the epoch.
    [getDate]/[setDate]/[getMonth]/[setMonth] work on the fields of the
    local time of the process, whose time zone is an input, [TimeZone];
    [toISOString] and MongoDB's [$year] and [$month] work on the UTC
    fields.  Time values stay within the range of a [Date], so that
    [TimeClip] is the identity. *)

Module JsDate.

Definition msPerDay : Z := 86400000.

Definition Day (t : Z) : Z := t / msPerDay.
Definition TimeWithinDay (t : Z) : Z := t mod msPerDay.

(** Days since the epoch of the civil date [y]-[m]-[d], [m] in 1..12. *)
Definition days_from_civil (y m d : Z) : Z :=
  let y' := if m <=? 2 then y - 1 else y in
  let era := y' / 400 in
  let yoe := y' - era * 400 in
  let mp := if 2 <? m then m - 3 else m + 9 in
  let doy := (153 * mp + 2) / 5 + d - 1 in
  let doe := yoe * 365 + yoe / 4 - yoe / 100 + doy in
  era * 146097 + doe - 719468.

(** The civil date (year, month 1..12, day) of a day number. *)
Definition civil_from_days (z : Z) : Z * Z * Z :=
  let z' := z + 719468 in
  let era := z' / 146097 in
  let doe := z' - era * 146097 in
  let yoe := (doe - doe / 1460 + doe / 36524 - doe / 146096) / 365 in
  let doy := doe - (365 * yoe + yoe / 4 - yoe / 100) in
  let mp := (5 * doy + 2) / 153 in
  let d := doy - (153 * mp + 2) / 5 + 1 in
  let m := if mp <? 10 then mp + 3 else mp - 9 in
  let y := yoe + era * 400 in
  (if m <=? 2 then y + 1 else y, m, d).

(** ECMAScript [YearFromTime], [MonthFromTime] (from 0) and
    [DateFromTime]: the calendar fields of a time value. *)
Definition YearFromTime (t : Z) : Z := (civil_from_days (Day t)).1.1.
Definition MonthFromTime (t : Z) : Z := (civil_from_days (Day t)).1.2 - 1.
Definition DateFromTime (t : Z) : Z := (civil_from_days (Day t)).2.

(** ECMAScript [MakeDay]: the month (from 0) may lie outside 0..11 and the
    day of the month outside the month; both carry over. *)
Definition MakeDay (year month date : Z) : Z :=
  let ym := year + month / 12 in
  let mn := month mod 12 in
  days_from_civil ym (mn + 1) 1 + date - 1.

Definition MakeDate (day time : Z) : Z := day * msPerDay + time.

(** The time zone of the process: ECMAScript [LocalTZA(t, isUTC)], the
    offset of local time from UTC in milliseconds, at the UTC time value
    [t] when [isUTC] is true and at the local time value [t] when it is
    false. *)
Record TimeZone := mkTimeZone { LocalTZA : Z -> bool -> Z }.

Definition LocalTime (tz : TimeZone) (t : Z) : Z := t + LocalTZA tz t true.
Definition UTC (tz : TimeZone) (t : Z) : Z := t - LocalTZA tz t false.

(** [d.getDate()] and [d.getMonth()] (from 0): fields of the local time. *)
Definition getDate (tz : TimeZone) (t : Z) : Z := DateFromTime (LocalTime tz t).
Definition getMonth (tz : TimeZone) (t : Z) : Z := MonthFromTime (LocalTime tz t).

(** [d.setDate(date)] and [d.setMonth(month)]: the new time value. *)
Definition setDate (tz : TimeZone) (t : Z) (date : Z) : Z :=
  let local := LocalTime tz t in
  UTC tz (MakeDate (MakeDay (YearFromTime local) (MonthFromTime local) date)
                   (TimeWithinDay local)).

Definition setMonth (tz : TimeZone) (t : Z) (month : Z) : Z :=
  let local := LocalTime tz t in
  UTC tz (MakeDate (MakeDay (YearFromTime local) month (DateFromTime local))
                   (TimeWithinDay local)).

(** The zone of a process that runs in UTC. *)
Definition utc : TimeZone := mkTimeZone (fun _ _ => 0).

(** MongoDB's [$year] and [$month] (1..12), which are UTC. *)
Definition year_of (t : Z) : Z := YearFromTime t.
Definition month_of (t : Z) : Z := MonthFromTime t + 1.

(** The year field of [toISOString]: four digits, or a sign and six. *)
Definition iso_year (y : Z) : string :=
  if (0 <=? y) && (y <=? 9999) then Js.fixed_digits 4 y
  else if y <? 0 then "-" +:+ Js.fixed_digits 6 (- y)
  else "+" +:+ Js.fixed_digits 6 y.

(** [d.toISOString()]: YYYY-MM-DDTHH:mm:ss.sssZ. *)
Definition toISOString (t : Z) : string :=
  let '(y, m, d) := civil_from_days (Day t) in
  let w := TimeWithinDay t in
  iso_year y +:+ "-" +:+ Js.fixed_digits 2 m +:+ "-" +:+ Js.fixed_digits 2 d
    +:+ "T" +:+ Js.fixed_digits 2 (w / 3600000)
    +:+ ":" +:+ Js.fixed_digits 2 ((w / 60000) mod 60)
    +:+ ":" +:+ Js.fixed_digits 2 ((w / 1000) mod 60)
    +:+ "." +:+ Js.fixed_digits 3 (w mod 1000) +:+ "Z".

End JsDate.

(** ** The data model ([models/Bug], [models/User]) *)

Inductive Status := Open | InProgress | Resolved | Closed | Reopened.
Inductive Priority := Low | Medium | High | Critical.
Inductive BugType := TBug | TFeature | TImprovement | TTask.

#[global] Instance Status_eq_dec : EqDecision Status.
Proof. solve_decision. Defined.
#[global] Instance Priority_eq_dec : EqDecision Priority.
Proof. solve_decision. Defined.
#[global] Instance BugType_eq_dec : EqDecision BugType.
Proof. solve_decision. Defined.

(** The [enum] lists of the schema, which are also the [isIn] lists of the
    listing's validator chain. *)
Definition status_name (s : Status) : string :=
  match s with
  | Open => "open" | InProgress => "in-progress" | Resolved => "resolved"
  | Closed => "closed" | Reopened => "reopened"
  end.

Definition priority_name (p : Priority) : string :=
  match p with
  | Low => "low" | Medium => "medium" | High => "high" | Critical => "critical"
  end.

Definition type_name (t : BugType) : string :=
  match t with
  | TBug => "bug" | TFeature => "feature" | TImprovement => "improvement" | TTask => "task"
  end.

Definition status_values : list string := map status_name [Open; InProgress; Resolved; Closed; Reopened].
Definition priority_values : list string := map priority_name [Low; Medium; High; Critical].
Definition type_values : list string := map type_name [TBug; TFeature; TImprovement; TTask].

(** An ObjectId is twelve bytes, kept as its hexadecimal digits. *)
Inductive hexdigit :=
  | x0 | x1 | x2 | x3 | x4 | x5 | x6 | x7 | x8 | x9 | xa | xb | xc | xd | xe | xf.

#[global] Instance hexdigit_eq_dec : EqDecision hexdigit.
Proof. solve_decision. Defined.

Definition ObjectId : Type := list hexdigit.

Definition hex_char (h : hexdigit) : ascii :=
  match h with
  | x0 => "0" | x1 => "1" | x2 => "2" | x3 => "3" | x4 => "4" | x5 => "5"
  | x6 => "6" | x7 => "7" | x8 => "8" | x9 => "9" | xa => "a" | xb => "b"
  | xc => "c" | xd => "d" | xe => "e" | xf => "f"
  end%char.

Definition hex_of_char (c : ascii) : option hexdigit :=
  match Js.lower c with
  | "0" => Some x0 | "1" => Some x1 | "2" => Some x2 | "3" => Some x3
  | "4" => Some x4 | "5" => Some x5 | "6" => Some x6 | "7" => Some x7
  | "8" => Some x8 | "9" => Some x9 | "a" => Some xa | "b" => Some xb
  | "c" => Some xc | "d" => Some xd | "e" => Some xe | "f" => Some xf
  | _ => None
  end%char.

(** [String(id)]: the lower-case hexadecimal rendering. *)
Fixpoint oid_to_string (o : ObjectId) : string :=
  match o with
  | [] => ""
  | h :: r => String (hex_char h) (oid_to_string r)
  end.

Fixpoint hex_digits (s : string) : option ObjectId :=
  match s with
  | EmptyString => Some []
  | String c r => h ← hex_of_char c; o ← hex_digits r; Some (h :: o)
  end.

(** The fields of a bug document that the engine reads or writes.  [tags],
    [attachments], the hour estimates and [dueDate] are carried by no
    operation below and are left out.  The priorities are those of the
    schema's [enum] (the [IBug] interface names the last one differently). *)
Record Bug := mkBug {
  bug_id : ObjectId;
  title : string;
  description : string;
  priority : Priority;
  status : Status;
  type : BugType;
  assignedTo : option ObjectId;
  reporter : ObjectId;
  resolvedAt : option Z;
  createdAt : Z;
  updatedAt : Z
}.

Record User := mkUser {
  user_id : ObjectId;
  firstName : string;
  lastName : string
}.

Record Store := mkStore {
  bugs : list Bug;
  users : list User
}.

(** ** Outcomes

    A store call either yields a value or throws; the handlers' [catch]
    turns what is thrown into a 500 response. *)

Inductive StoreError :=
  | CastError (path : string) (value : string)
  | RegexError (pattern : string).

Inductive result (A : Type) :=
  | Ok (a : A)
  | Throw (e : StoreError).
Arguments Ok {A} a.
Arguments Throw {A} e.

Definition rbind {A B} (r : result A) (k : A -> result B) : result B :=
  match r with
  | Ok a => k a
  | Throw e => Throw e
  end.

Definition rmap {A B} (f : A -> B) (r : result A) : result B :=
  rbind r (fun a => Ok (f a)).

Notation "'try' x <- r ; k" := (rbind r (fun x => k))
  (at level 10, x name, r at level 100, k at level 200).

(** ** What the store decides

    [regex_compile pattern options] is the matcher the MongoDB server builds
    for [{ $regex: pattern, $options: options }], or [None] when it rejects
    the pattern.  [cast_oid] is Mongoose's cast of a query string to an
    ObjectId for a path of schema type ObjectId, or [None] when it throws
    its CastError. *)

Class StoreEngine := {
  regex_compile : string -> string -> option (string -> bool);
  cast_oid : string -> option ObjectId
}.

(** ** The validator chain of [GET /api/bugs] (express-validator) *)

Module Validator.

(** validator.js [isInt(str, { min, max })]: an optional sign and decimal
    digits (leading zeros allowed), and the numeric value within bounds. *)
Definition int_syntax (s : string) : bool :=
  match s with
  | String "-"%char r | String "+"%char r => Js.starts_with_digit r && Js.all_digits r
  | _ => Js.starts_with_digit s && Js.all_digits s
  end.

Definition isInt (min : Z) (max : option Z) (s : string) : bool :=
  int_syntax s &&
  match Js.parseInt s with
  | Some n => (min <=? n) && (match max with Some m => n <=? m | None => true end)
  | None => false
  end.

Definition isIn (values : list string) (s : string) : bool :=
  bool_decide (s ∈ values).

(** validator.js [isHexadecimal]: an optional [0x] or [0h] prefix, then
    one hexadecimal digit or more, in either case. *)
Definition strip_hex_prefix (s : string) : string :=
  match s with
  | String "0"%char (String c r) =>
      if Ascii.eqb (Js.lower c) "x"%char || Ascii.eqb (Js.lower c) "h"%char then r else s
  | _ => s
  end.

Definition isHexadecimal (s : string) : bool :=
  let digits := strip_hex_prefix s in
  Js.truthy digits && bool_decide (is_Some (hex_digits digits)).

(** validator.js [isMongoId]: hexadecimal and 24 characters long. *)
Definition isMongoId (s : string) : bool :=
  isHexadecimal s && (String.length s =? 24)%nat.

(** Every value of the query map is a string. *)
Definition isString (s : string) : bool := true.

(** [query(path).optional().check()]: only an absent parameter is skipped;
    a present one, were it empty, is checked. *)
Definition chain : list (string * (string -> bool)) :=
  [ ("page", isInt 1 None);
    ("limit", isInt 1 (Some 100));
    ("status", isIn status_values);
    ("priority", isIn priority_values);
    ("type", isIn type_values);
    ("assignedTo", isMongoId);
    ("reporter", isMongoId);
    ("search", isString) ].

Definition fails (q : gmap string string) (c : string * (string -> bool)) : bool :=
  match q !! c.1 with
  | None => false
  | Some v => negb (c.2 v)
  end.

(** [validationResult(req).array()], reduced to the offending paths. *)
Definition validationResult (q : gmap string string) : list string :=
  map fst (List.filter (fails q) chain).

End Validator.

(** ** Mongo filters *)

Record RegexClause := mkClause {
  rc_path : string;
  rc_regex : string;
  rc_options : string
}.

(** The values the handlers store in a filter object: a query string, [null],
    or the array of regex clauses under [$or]. *)
Inductive FVal :=
  | FStr (s : string)
  | FNull
  | FOr (clauses : list RegexClause).

(** [if (req.query.k) filter.k = req.query.k]. *)
Definition copy_if_truthy (k : string) (q : gmap string string)
    (filter : gmap string FVal) : gmap string FVal :=
  match q !! k with
  | Some v => if Js.truthy v then <[k := FStr v]> filter else filter
  | None => filter
  end.

(** What [copy_if_truthy] stores for a parameter, if anything. *)
Definition truthy_val (v : option string) : option FVal :=
  match v with
  | Some s => if Js.truthy s then Some (FStr s) else None
  | None => None
  end.

Definition search_clauses (term : string) : FVal :=
  FOr [ mkClause "title" term "i"; mkClause "description" term "i" ].

(** The filter object of [GET /api/bugs] (bugs.ts, lines 42-62). *)
Definition listFilter (q : gmap string string) : gmap string FVal :=
  let filter := ∅ in
  let filter := copy_if_truthy "status" q filter in
  let filter := copy_if_truthy "priority" q filter in
  let filter := copy_if_truthy "type" q filter in
  let filter := copy_if_truthy "assignedTo" q filter in
  let filter := copy_if_truthy "reporter" q filter in
  let filter :=
    if bool_decide (q !! "unassigned" = Some "true")
    then <["assignedTo" := FNull]> filter else filter in
  match q !! "search" with
  | Some searchTerm =>
      if Js.truthy searchTerm then <["$or" := search_clauses searchTerm]> filter else filter
  | None => filter
  end.

(** The filter object of [GET /api/bugs/export] (bugs.ts, lines 110-129). *)
Definition exportFilter (q : gmap string string) : gmap string FVal :=
  let filter := ∅ in
  let filter := copy_if_truthy "status" q filter in
  let filter := copy_if_truthy "priority" q filter in
  let filter := copy_if_truthy "type" q filter in
  let filter := copy_if_truthy "assignedTo" q filter in
  let filter := copy_if_truthy "reporter" q filter in
  let filter :=
    if bool_decide (q !! "unassigned" = Some "true")
    then <["assignedTo" := FNull]> filter else filter in
  match q !! "search" with
  | Some search =>
      if Js.truthy search
      then <["$or" := FOr [ mkClause "title" search "i"; mkClause "description" search "i" ]]> filter
      else filter
  | None => filter
  end.

(** ** The store's reading of a filter

    Mongoose casts each path of the filter to its schema type and throws a
    CastError when it cannot; the server then compiles the regular
    expressions.  The outcome is the predicate on documents. *)

Section Store.
Context `{StoreEngine}.

(** A path of schema type String: equality with the given string.  The
    paths concerned are required, so no document matches [null]. *)
Definition cast_string_path (path : string) (get : Bug -> string)
    (v : option FVal) : result (Bug -> bool) :=
  match v with
  | None => Ok (fun _ => true)
  | Some (FStr s) => Ok (fun b => String.eqb (get b) s)
  | Some FNull => Ok (fun _ => false)
  | Some (FOr _) => Throw (CastError path "array")
  end.

(** A path of schema type ObjectId: [null] selects the documents whose
    reference is null or missing; a string is cast first. *)
Definition cast_oid_path (path : string) (get : Bug -> option ObjectId)
    (v : option FVal) : result (Bug -> bool) :=
  match v with
  | None => Ok (fun _ => true)
  | Some (FStr s) =>
      match cast_oid s with
      | Some o => Ok (fun b => bool_decide (get b = Some o))
      | None => Throw (CastError path s)
      end
  | Some FNull => Ok (fun b => bool_decide (get b = None))
  | Some (FOr _) => Throw (CastError path "array")
  end.

Definition string_field (path : string) (b : Bug) : option string :=
  if String.eqb path "title" then Some (title b)
  else if String.eqb path "description" then Some (description b)
  else if String.eqb path "status" then Some (status_name (status b))
  else if String.eqb path "priority" then Some (priority_name (priority b))
  else if String.eqb path "type" then Some (type_name (type b))
  else None.

(** [{ path: { $regex, $options } }]. *)
Definition compile_clause (c : RegexClause) : result (Bug -> bool) :=
  match regex_compile (rc_regex c) (rc_options c) with
  | Some m =>
      Ok (fun b => match string_field (rc_path c) b with
                   | Some s => m s
                   | None => false
                   end)
  | None => Throw (RegexError (rc_regex c))
  end.

Fixpoint compile_clauses (cs : list RegexClause) : result (list (Bug -> bool)) :=
  match cs with
  | [] => Ok []
  | c :: r => try m <- compile_clause c; try ms <- compile_clauses r; Ok (m :: ms)
  end.

Definition cast_or (v : option FVal) : result (Bug -> bool) :=
  match v with
  | None => Ok (fun _ => true)
  | Some (FOr cs) =>
      try ms <- compile_clauses cs; Ok (fun b => existsb (fun m => m b) ms)
  | Some (FStr s) => Throw (CastError "$or" s)
  | Some FNull => Throw (CastError "$or" "null")
  end.

(** The predicate of a filter: the conjunction over its paths. *)
Definition castFilter (filter : gmap string FVal) : result (Bug -> bool) :=
  try p_status <- cast_string_path "status" (fun b => status_name (status b)) (filter !! "status");
  try p_priority <- cast_string_path "priority" (fun b => priority_name (priority b)) (filter !! "priority");
  try p_type <- cast_string_path "type" (fun b => type_name (type b)) (filter !! "type");
  try p_assignedTo <- cast_oid_path "assignedTo" assignedTo (filter !! "assignedTo");
  try p_reporter <- cast_oid_path "reporter" (fun b => Some (reporter b)) (filter !! "reporter");
  try p_or <- cast_or (filter !! "$or");
  Ok (fun b => p_status b && p_priority b && p_type b
               && p_assignedTo b && p_reporter b && p_or b).

(** [Bug.find(filter)], in the collection's order. *)
Definition find (filter : gmap string FVal) (db : Store) : result (list Bug) :=
  try p <- castFilter filter; Ok (List.filter p (bugs db)).

(** [Bug.countDocuments(filter)]. *)
Definition countDocuments (filter : gmap string FVal) (db : Store) : result Z :=
  try p <- castFilter filter; Ok (Z.of_nat (length (List.filter p (bugs db)))).

End Store.

(** [.sort({ createdAt: -1 })]: most recently created first; documents
    created at the same instant keep the collection's order. *)
Fixpoint insert_desc (b : Bug) (l : list Bug) : list Bug :=
  match l with
  | [] => [b]
  | x :: r => if createdAt x <=? createdAt b then b :: l else x :: insert_desc b r
  end.

Definition sortCreatedDesc (l : list Bug) : list Bug := foldr insert_desc [] l.

(** [.skip(skip).limit(limit)]. *)
Definition window (skip limit : Z) (l : list Bug) : list Bug :=
  take (Z.to_nat limit) (drop (Z.to_nat skip) l).

(** ** Responses *)

Inductive Response (A : Type) :=
  | Success (data : A)                                   (* 200 *)
  | Invalid (message : string) (errors : list string)    (* 400 *)
  | Failed (message : string).                           (* 500 *)
Arguments Success {A} data.
Arguments Invalid {A} message errors.
Arguments Failed {A} message.

(** ** The listing: [GET /api/bugs] *)

Record Pagination := mkPagination {
  currentPage : Z;
  totalPages : Z;
  totalCount : Z;
  hasNext : bool;
  hasPrev : bool
}.

Record Listing := mkListing {
  listed : list Bug;
  pagination : Pagination
}.

(** [Math.ceil(a / b)] for integers [a] and [b > 0]. *)
Definition Math_ceil_div (a b : Z) : Z := - ((- a) / b).

(** The envelope of bugs.ts, lines 77-89. *)
Definition paginate (totalCount page limit : Z) : Pagination :=
  let totalPages := Math_ceil_div totalCount limit in
  {| currentPage := page;
     totalPages := totalPages;
     totalCount := totalCount;
     hasNext := page <? totalPages;
     hasPrev := 1 <? page |}.

Section ListingHandler.
Context `{StoreEngine}.

(** The handler (bugs.ts, lines 26-100).  The two reads of [Promise.all]
    see one store state; either one throwing is caught as a 500.  The
    populated user references and the comment count only decorate the
    documents returned and are left out. *)
Definition listing (q : gmap string string) (db : Store) : Response Listing :=
  match Validator.validationResult q with
  | (_ :: _) as errors => Invalid "Invalid query parameters" errors
  | [] =>
      let page := Js.parseIntOr (q !! "page") 1 in
      let limit := Js.parseIntOr (q !! "limit") 10 in
      let skip := (page - 1) * limit in
      let filter := listFilter q in
      match (try found <- find filter db;
             try totalCount <- countDocuments filter db;
             Ok (window skip limit (sortCreatedDesc found), totalCount)) with
      | Ok (page_bugs, totalCount) =>
          Success {| listed := page_bugs;
                     pagination := paginate totalCount page limit |}
      | Throw _ => Failed "Failed to fetch bugs"
      end
  end.

End ListingHandler.

(** ** The export: [GET /api/bugs/export] *)

Definition nl : string := String Js.newline "".

Definition csvHeader : string :=
  "ID,Title,Description,Status,Priority,Type,Assigned To,Reporter,Created At,Updated At" +:+ nl.

(** [escapeCSV] (bugs.ts, lines 148-153). *)
Definition escapeCSV (field : string) : string :=
  if Js.includes Js.comma field || Js.includes Js.dquote field || Js.includes Js.newline field
  then String Js.dquote
         (Js.replaceAll Js.dquote (String Js.dquote (String Js.dquote "")) field
          +:+ String Js.dquote "")
  else field.

(** [populate(path, 'firstName lastName email')]: the referenced user, or
    [null] when the reference is null or dangling. *)
Definition populate (db : Store) (ref : option ObjectId) : option User :=
  o ← ref; List.find (fun u => bool_decide (user_id u = o)) (users db).

Definition display_name (u : option User) (fallback : string) : string :=
  match u with
  | Some u => firstName u +:+ " " +:+ lastName u
  | None => fallback
  end.

(** The ten column values of a bug, before any escaping. *)
Definition columns (db : Store) (bug : Bug) : list string :=
  [ oid_to_string (bug_id bug);
    title bug;
    description bug;
    status_name (status bug);
    priority_name (priority bug);
    type_name (type bug);
    display_name (populate db (assignedTo bug)) "Unassigned";
    display_name (populate db (Some (reporter bug))) "Unknown";
    JsDate.toISOString (createdAt bug);
    JsDate.toISOString (updatedAt bug) ].

(** One line of the body (bugs.ts, lines 139-167): the title, the
    description and the two display names go through [escapeCSV], the other
    six columns are written as they are. *)
Definition csvRow (db : Store) (bug : Bug) : string :=
  let assignedTo := display_name (populate db (assignedTo bug)) "Unassigned" in
  let reporter := display_name (populate db (Some (reporter bug))) "Unknown" in
  Js.join ","
    [ oid_to_string (bug_id bug);
      escapeCSV (title bug);
      escapeCSV (description bug);
      status_name (status bug);
      priority_name (priority bug);
      type_name (type bug);
      escapeCSV assignedTo;
      escapeCSV reporter;
      JsDate.toISOString (createdAt bug);
      JsDate.toISOString (updatedAt bug) ].

Section ExportHandler.
Context `{StoreEngine}.

(** The documents the export reads: no window. *)
Definition exportRows (q : gmap string string) (db : Store) : result (list Bug) :=
  try found <- find (exportFilter q) db; Ok (sortCreatedDesc found).

Definition exportBugs (q : gmap string string) (db : Store) : Response string :=
  match exportRows q db with
  | Ok found => Success (csvHeader +:+ Js.join nl (map (csvRow db) found))
  | Throw _ => Failed "Failed to export bugs"
  end.

End ExportHandler.

(** ** The export on a query as Express parses it

    [req.query] comes from the [qs] parser: a parameter is a string, an
    array (a repeated key) or an object ([k[p]=v]).  The export has no
    validator chain and copies into the filter whatever it finds.  What the
    store makes of a filter value that is not a string (an operator object,
    an array) is the store's decision, [cast_raw]: a predicate, or a throw.
    On a query whose parameters are all strings the handler is
    [exportBugs]. *)

#[warnings="-register-all"]
Inductive QVal :=
  | QStr (s : string)
  | QArr (items : list QVal)
  | QObj (props : list (string * QVal)).

Class RawEngine := {
  cast_raw : string -> QVal -> result (Bug -> bool)
}.

(** [if (req.query.k)]: what is copied, if anything.  An array and an
    object are truthy, a string is unless it is empty. *)
Definition truthy_q (v : option QVal) : option QVal :=
  match v with
  | Some (QStr s) => if Js.truthy s then v else None
  | Some _ => v
  | None => None
  end.

(** [req.query.unassigned === 'true']. *)
Definition is_true_string (v : option QVal) : bool :=
  match v with
  | Some (QStr s) => String.eqb s "true"
  | _ => false
  end.

(** The filter object of the export: its six possible properties.
    [Some None] under [assignedTo] is [null]; [rf_or] is the value put
    under [$regex] in the two clauses of [$or]. *)
Record RawFilter := mkRawFilter {
  rf_status : option QVal;
  rf_priority : option QVal;
  rf_type : option QVal;
  rf_assignedTo : option (option QVal);
  rf_reporter : option QVal;
  rf_or : option QVal
}.

(** bugs.ts, lines 110-129. *)
Definition exportFilterRaw (q : gmap string QVal) : RawFilter :=
  {| rf_status := truthy_q (q !! "status");
     rf_priority := truthy_q (q !! "priority");
     rf_type := truthy_q (q !! "type");
     rf_assignedTo :=
       if is_true_string (q !! "unassigned") then Some None
       else Some <$> truthy_q (q !! "assignedTo");
     rf_reporter := truthy_q (q !! "reporter");
     rf_or := truthy_q (q !! "search") |}.

Section RawExport.
Context `{StoreEngine} `{RawEngine}.

(** The cast of one path: a string and [null] as in [castFilter], any
    other value as the store decides. *)
Definition cast_value (path : string) (cast : option FVal -> result (Bug -> bool))
    (v : option (option QVal)) : result (Bug -> bool) :=
  match v with
  | None => cast None
  | Some None => cast (Some FNull)
  | Some (Some (QStr s)) => cast (Some (FStr s))
  | Some (Some v) => cast_raw path v
  end.

Definition cast_search (v : option QVal) : result (Bug -> bool) :=
  match v with
  | None => cast_or None
  | Some (QStr s) => cast_or (Some (search_clauses s))
  | Some v => cast_raw "$or" v
  end.

Definition castFilterRaw (filter : RawFilter) : result (Bug -> bool) :=
  try p_status <- cast_value "status"
                    (cast_string_path "status" (fun b => status_name (status b)))
                    (Some <$> rf_status filter);
  try p_priority <- cast_value "priority"
                      (cast_string_path "priority" (fun b => priority_name (priority b)))
                      (Some <$> rf_priority filter);
  try p_type <- cast_value "type"
                  (cast_string_path "type" (fun b => type_name (type b)))
                  (Some <$> rf_type filter);
  try p_assignedTo <- cast_value "assignedTo" (cast_oid_path "assignedTo" assignedTo)
                        (rf_assignedTo filter);
  try p_reporter <- cast_value "reporter"
                      (cast_oid_path "reporter" (fun b => Some (reporter b)))
                      (Some <$> rf_reporter filter);
  try p_or <- cast_search (rf_or filter);
  Ok (fun b => p_status b && p_priority b && p_type b
               && p_assignedTo b && p_reporter b && p_or b).

Definition exportRowsRaw (q : gmap string QVal) (db : Store) : result (list Bug) :=
  try p <- castFilterRaw (exportFilterRaw q); Ok (sortCreatedDesc (List.filter p (bugs db))).

(** [GET /api/bugs/export] (bugs.ts, lines 105-184). *)
Definition exportBugsRaw (q : gmap string QVal) (db : Store) : Response string :=
  match exportRowsRaw q db with
  | Ok found => Success (csvHeader +:+ Js.join nl (map (csvRow db) found))
  | Throw _ => Failed "Failed to export bugs"
  end.

End RawExport.

(** ** The analytics: [GET /api/bugs/analytics] *)

(** [$group: { _id: key, count: { $sum: 1 } }]: one entry per distinct key,
    in the order of first occurrence. *)
Fixpoint bump {K} `{EqDecision K} (k : K) (groups : list (K * Z)) : list (K * Z) :=
  match groups with
  | [] => [(k, 1)]
  | (k', n) :: r => if decide (k' = k) then (k', n + 1) :: r else (k', n) :: bump k r
  end.

Definition groupCount {K} `{EqDecision K} (key : Bug -> K) (l : list Bug) : list (K * Z) :=
  fold_left (fun groups b => bump (key b) groups) l [].

Definition countWhere (p : Bug -> bool) (db : Store) : Z :=
  Z.of_nat (length (List.filter p (bugs db))).

(** The clock of the process: [clock k] is the time value that the [k]-th
    evaluation of [new Date()] within one invocation yields. *)
Definition Clock : Type := nat -> Z.

(** [last7Days.setDate(last7Days.getDate() - 7)]. *)
Definition sevenDaysBefore (tz : JsDate.TimeZone) (now : Z) : Z :=
  JsDate.setDate tz now (JsDate.getDate tz now - 7).
(** [sixMonthsAgo.setMonth(sixMonthsAgo.getMonth() - 6)]. *)
Definition sixMonthsBefore (tz : JsDate.TimeZone) (now : Z) : Z :=
  JsDate.setMonth tz now (JsDate.getMonth tz now - 6).

(** The assignee pipeline: [$match], [$lookup] and [$unwind] (a bug whose
    assignee is no user is dropped), [$group] with the first name seen,
    [$sort] by count descending, [$limit 5]. *)
Fixpoint bump_named (k : ObjectId) (name : string) (groups : list (ObjectId * string * Z))
    : list (ObjectId * string * Z) :=
  match groups with
  | [] => [(k, name, 1)]
  | (k', nm, n) :: r =>
      if decide (k' = k) then (k', nm, n + 1) :: r else (k', nm, n) :: bump_named k name r
  end.

Fixpoint insert_by_count (g : ObjectId * string * Z) (l : list (ObjectId * string * Z))
    : list (ObjectId * string * Z) :=
  match l with
  | [] => [g]
  | x :: r => if x.2 <=? g.2 then g :: l else x :: insert_by_count g r
  end.

Definition assigneeStats (db : Store) : list (string * Z) :=
  let joined :=
    omap (fun b => u ← populate db (assignedTo b); Some (user_id u, display_name (Some u) "")) (bugs db) in
  let groups := fold_left (fun gs '(k, name) => bump_named k name gs) joined [] in
  map (fun g => (g.1.2, g.2)) (take 5 (foldr insert_by_count [] groups)).

(** The trend pipeline: [$match], [$group] by (year, month), [$sort]. *)
Fixpoint insert_month (g : Z * Z * Z) (l : list (Z * Z * Z)) : list (Z * Z * Z) :=
  match l with
  | [] => [g]
  | x :: r =>
      if (g.1.1 <? x.1.1) || ((g.1.1 =? x.1.1) && (g.1.2 <? x.1.2))
      then g :: l else x :: insert_month g r
  end.

Definition monthlyTrend (since : Z) (db : Store) : list (string * Z) :=
  let recent := List.filter (fun b => since <=? createdAt b) (bugs db) in
  let groups := groupCount (fun b => (JsDate.year_of (createdAt b), JsDate.month_of (createdAt b))) recent in
  map (fun g => (Js.number_to_string g.1.1 +:+ "-" +:+ Js.fixed_digits 2 g.1.2, g.2))
      (foldr insert_month [] groups).

Record Report := mkReport {
  totalBugs : Z;
  openBugs : Z;
  inProgressBugs : Z;
  resolvedBugs : Z;
  closedBugs : Z;
  highPriorityBugs : Z;
  criticalBugs : Z;
  recentBugs : Z;
  statusDistribution : list (string * Z);
  priorityDistribution : list (string * Z);
  assigneeDistribution : list (string * Z);
  trend : list (string * Z)
}.

Definition has_status (s : Status) (b : Bug) : bool := bool_decide (status b = s).
Definition has_priority (p : Priority) (b : Bug) : bool := bool_decide (priority b = p).

(** [new Date()]: the next value of the clock. *)
Definition newDate (clock : Clock) (reads : nat) : Z * nat := (clock reads, S reads).

(** The handler (bugs.ts, lines 189-323), the number of clock reads so far
    threaded through it. *)
Definition analytics (tz : JsDate.TimeZone) (clock : Clock) (db : Store)
    : Response Report :=
  let reads := O in
  let totalBugs := countWhere (fun _ => true) db in
  let openBugs := countWhere (has_status Open) db in
  let inProgressBugs := countWhere (has_status InProgress) db in
  let resolvedBugs := countWhere (has_status Resolved) db in
  let closedBugs := countWhere (has_status Closed) db in
  let highPriorityBugs := countWhere (has_priority High) db in
  let criticalPriorityBugs := countWhere (has_priority Critical) db in
  let statusStats := groupCount status (bugs db) in
  let priorityStats := groupCount priority (bugs db) in
  let '(last7Days, reads) := newDate clock reads in
  let last7Days := sevenDaysBefore tz last7Days in
  let recentBugs := countWhere (fun b => last7Days <=? createdAt b) db in
  let assignees := assigneeStats db in
  let '(sixMonthsAgo, reads) := newDate clock reads in
  let sixMonthsAgo := sixMonthsBefore tz sixMonthsAgo in
  let monthly := monthlyTrend sixMonthsAgo db in
  Success {|
    totalBugs := totalBugs;
    openBugs := openBugs;
    inProgressBugs := inProgressBugs;
    resolvedBugs := resolvedBugs;
    closedBugs := closedBugs;
    highPriorityBugs := highPriorityBugs;
    criticalBugs := criticalPriorityBugs;
    recentBugs := recentBugs;
    statusDistribution := map (fun item => (status_name item.1, item.2)) statusStats;
    priorityDistribution := map (fun item => (priority_name item.1, item.2)) priorityStats;
    assigneeDistribution := assignees;
    trend := monthly |}.

(** The report as the specification words it: one clock value [now],
    captured once, from which both windows are derived. *)
Definition analyticsOneNow (tz : JsDate.TimeZone) (now : Z) (db : Store) : Report :=
  {| totalBugs := countWhere (fun _ => true) db;
     openBugs := countWhere (has_status Open) db;
     inProgressBugs := countWhere (has_status InProgress) db;
     resolvedBugs := countWhere (has_status Resolved) db;
     closedBugs := countWhere (has_status Closed) db;
     highPriorityBugs := countWhere (has_priority High) db;
     criticalBugs := countWhere (has_priority Critical) db;
     recentBugs := countWhere (fun b => sevenDaysBefore tz now <=? createdAt b) db;
     statusDistribution := map (fun item => (status_name item.1, item.2)) (groupCount status (bugs db));
     priorityDistribution := map (fun item => (priority_name item.1, item.2)) (groupCount priority (bugs db));
     assigneeDistribution := assigneeStats db;
     trend := monthlyTrend (sixMonthsBefore tz now) db |}.

Definition sum_counts (d : list (string * Z)) : Z :=
  fold_right (fun item acc => item.2 + acc) 0 d.

(** ** Writes: [POST /api/bugs], [PUT /api/bugs/:id] and the save hook *)

Definition with_resolvedAt (r : option Z) (b : Bug) : Bug :=
  mkBug (bug_id b) (title b) (description b) (priority b) (status b) (type b)
        (assignedTo b) (reporter b) r (createdAt b) (updatedAt b).

(** [bugSchema.pre('save')]; [status_modified] is
    [this.isModified('status')], [now] the value of [new Date()]. *)
Definition pre_save (status_modified : bool) (now : Z) (doc : Bug) : Bug :=
  if status_modified then
    if bool_decide (status doc = Closed) && negb (bool_decide (is_Some (resolvedAt doc)))
    then with_resolvedAt (Some now) doc
    else if negb (bool_decide (status doc = Closed))
    then with_resolvedAt None doc
    else doc
  else doc.

Definition user_exists (db : Store) (o : ObjectId) : bool :=
  bool_decide (is_Some (List.find (fun u => bool_decide (user_id u = o)) (users db))).

(** The body of a creation after its validator chain (bugs.ts, lines
    375-384), of which the handler reads no [status] and no [resolvedAt]:
    both take the schema defaults.  [c_assignedTo] is the string that
    passed [isMongoId]; [c_dueDate] is the [Date] that the handler builds
    from the string that passed [isISO8601], [Some None] when that is an
    invalid date.  Tags and hours are carried by no operation below. *)
Record CreateBody := mkCreateBody {
  c_title : string;
  c_description : string;
  c_priority : Priority;
  c_type : option BugType;
  c_assignedTo : option string;
  c_dueDate : option (option Z)
}.

(** The validator of [dueDate] in the schema (lines 95-102 of the model):
    [!value || value > new Date()]. *)
Definition dueDate_validator (value : option Z) (now : Z) : bool :=
  match value with
  | None => true
  | Some t => now <? t
  end.

(** What [bug.save()] does with the document. *)
Record SaveInputs := mkSaveInputs {
  fresh : ObjectId;            (* the identifier that the driver generates *)
  saved_at : Z;                (* the clock value of the timestamps *)
  validated_at : Z;            (* the clock value that the validator reads *)
  status_modified : bool;      (* [isModified('status')] for the defaulted path *)
  schema_accepts : bool        (* the other validators of the schema pass and
                                  the insert is acknowledged *)
}.

Section CreateHandler.
Context `{StoreEngine}.

(** The cast and the validation of the [dueDate] path at [save()]: an
    invalid date is refused by the cast, a date by the validator unless it
    lies in the future, [null] is accepted. *)
Definition dueDate_accepted (dueDate : option (option Z)) (now : Z) : bool :=
  match dueDate with
  | None => dueDate_validator None now
  | Some None => false
  | Some (Some t) => dueDate_validator (Some t) now
  end.

(** [new Bug({...})] and [bug.save()] (bugs.ts, lines 409-421). *)
Definition saveNew (save : SaveInputs) (body : CreateBody) (assignee : option ObjectId)
    (reporter_id : ObjectId) (db : Store) : Response (Bug * Store) :=
  let bug :=
    {| bug_id := fresh save;
       title := c_title body;
       description := c_description body;
       priority := c_priority body;
       status := Open;
       type := default TBug (c_type body);
       assignedTo := assignee;
       reporter := reporter_id;
       resolvedAt := None;
       createdAt := saved_at save;
       updatedAt := saved_at save |} in
  if dueDate_accepted (c_dueDate body) (validated_at save) && schema_accepts save
  then let saved := pre_save (status_modified save) (saved_at save) bug in
       Success (saved, {| bugs := bugs db ++ [saved]; users := users db |})
  else Failed "Failed to create bug".

(** [POST /api/bugs] (bugs.ts, lines 385-439), after the validator chain:
    a throw of [User.findById] or of [save()] is caught as a 500. *)
Definition createBug (save : SaveInputs) (body : CreateBody) (reporter_id : ObjectId)
    (db : Store) : Response (Bug * Store) :=
  match c_assignedTo body with
  | Some a =>
      if Js.truthy a then
        match cast_oid a with
        | None => Failed "Failed to create bug"
        | Some o =>
            if user_exists db o then saveNew save body (Some o) reporter_id db
            else Invalid "Assigned user not found" []
        end
      else saveNew save body None reporter_id db
  | None => saveNew save body None reporter_id db
  end.

End CreateHandler.

(** The body of an update, after its validator chain: every property is
    optional; [Some None] stands for an explicit [null] (or the empty
    string, which the handler turns into [null]).  The handler passes
    [req.body] on as it is, so a [resolvedAt] property, a path of the
    schema, is written too. *)
Record UpdateBody := mkUpdateBody {
  u_title : option string;
  u_description : option string;
  u_priority : option Priority;
  u_status : option Status;
  u_type : option BugType;
  u_assignedTo : option (option ObjectId);
  u_resolvedAt : option (option Z)
}.

(** [$set] of the supplied properties; the timestamps plugin sets
    [updatedAt]. *)
Definition apply_update (now : Z) (u : UpdateBody) (b : Bug) : Bug :=
  {| bug_id := bug_id b;
     title := default (title b) (u_title u);
     description := default (description b) (u_description u);
     priority := default (priority b) (u_priority u);
     status := default (status b) (u_status u);
     type := default (type b) (u_type u);
     assignedTo := default (assignedTo b) (u_assignedTo u);
     reporter := reporter b;
     resolvedAt := default (resolvedAt b) (u_resolvedAt u);
     createdAt := createdAt b;
     updatedAt := now |}.

Definition findById (id : ObjectId) (db : Store) : option Bug :=
  List.find (fun b => bool_decide (bug_id b = id)) (bugs db).

Fixpoint replace_first (id : ObjectId) (b' : Bug) (l : list Bug) : list Bug :=
  match l with
  | [] => []
  | b :: r => if bool_decide (bug_id b = id) then b' :: r else b :: replace_first id b' r
  end.

Inductive UpdateOutcome :=
  | Updated (bug : Bug) (db : Store)
  | NotFound
  | UnknownAssignee.

(** [PUT /api/bugs/:id] (bugs.ts, lines 480-526):
    [Bug.findByIdAndUpdate(id, updateData, { new: true, runValidators: true })]
    writes the document in the store; no document is loaded and saved, so
    the [save] hook does not run. *)
Definition updateBug (id : ObjectId) (now : Z) (updateData : UpdateBody) (db : Store)
    : UpdateOutcome :=
  match findById id db with
  | None => NotFound
  | Some bug =>
      if match u_assignedTo updateData with
         | Some (Some a) => negb (user_exists db a)
         | _ => false
         end
      then UnknownAssignee
      else
        let updatedBug := apply_update now updateData bug in
        Updated updatedBug {| bugs := replace_first id updatedBug (bugs db); users := users db |}
  end.

(** ** Vocabulary of the statements *)

(** The bug has no assignee. *)
Definition unassigned (b : Bug) : bool := bool_decide (assignedTo b = None).

(** The query without its two assignee parameters. *)
Definition without_assignee_keys (q : gmap string string) : gmap string string :=
  delete "unassigned" (delete "assignedTo" q).

(** The value a filter built from [q] holds under the key [i]. *)
Definition filter_entry (q : gmap string string) (i : string) : option FVal :=
  if decide (i = "$or") then
    s ← q !! "search"; if Js.truthy s then Some (search_clauses s) else None
  else if decide (i = "assignedTo") then
    if bool_decide (q !! "unassigned" = Some "true") then Some FNull
    else truthy_val (q !! "assignedTo")
  else if decide (i ∈ ["status"; "priority"; "type"; "reporter"]) then truthy_val (q !! i)
  else None.

(** The invariant of the resolved timestamp: present only on a closed bug. *)
Definition resolved_only_when_closed (b : Bug) : Prop :=
  is_Some (resolvedAt b) -> status b = Closed.

(** ** A store engine to compute with

    The fragment of the regular-expression syntax made of literal
    characters and the dot, which matches any character but a newline;
    a pattern with another metacharacter is outside the fragment and is
    answered by [None].  Identifiers are cast from 24 hexadecimal digits
    only. *)

Module Fragment.

Inductive atom := Lit (c : ascii) | AnyChar.

Definition is_meta (c : ascii) : bool :=
  bool_decide (c ∈ ["\"; "^"; "$"; "*"; "+"; "?"; "("; ")"; "["; "]"; "{"; "}"; "|"]%char).

Fixpoint parse (pattern : string) : option (list atom) :=
  match pattern with
  | EmptyString => Some []
  | String c r =>
      if is_meta c then None
      else rest ← parse r;
           Some ((if Ascii.eqb c "."%char then AnyChar else Lit c) :: rest)
  end.

Definition atom_matches (ci : bool) (a : atom) (c : ascii) : bool :=
  match a with
  | Lit l => if ci then Js.eqb_ci l c else Ascii.eqb l c
  | AnyChar => negb (Ascii.eqb c Js.newline)
  end.

(** The atoms match a prefix of the subject. *)
Fixpoint match_here (ci : bool) (atoms : list atom) (s : string) : bool :=
  match atoms, s with
  | [], _ => true
  | a :: r, String c t => atom_matches ci a c && match_here ci r t
  | _ :: _, EmptyString => false
  end.

(** Unanchored search: the atoms match at some position. *)
Fixpoint search (ci : bool) (atoms : list atom) (s : string) : bool :=
  match_here ci atoms s ||
  match s with
  | EmptyString => false
  | String _ t => search ci atoms t
  end.

Definition compile (pattern options : string) : option (string -> bool) :=
  atoms ← parse pattern;
  Some (search (Js.includes "i"%char options) atoms).

Definition cast (s : string) : option ObjectId :=
  if (String.length s =? 24)%nat then hex_digits s else None.

End Fragment.

(** The text holds no character that the regular-expression syntax reads
    as anything but itself. *)
Definition literal_text (s : string) : bool :=
  forallb (fun c => negb (Fragment.is_meta c) && negb (Ascii.eqb c "."%char))
          (list_ascii_of_string s).

(** The field holds no comma, no double quote and no newline. *)
Definition plain (field : string) : bool :=
  negb (Js.includes Js.comma field) && negb (Js.includes Js.dquote field)
  && negb (Js.includes Js.newline field).

(** The text between two double quotes. *)
Definition quoted (s : string) : string :=
  String Js.dquote (s +:+ String Js.dquote "").

(** The sum of the counts of a grouping, and the count under one key. *)
Definition total {K} (groups : list (K * Z)) : Z :=
  fold_right (fun item acc => item.2 + acc) 0 groups.

Fixpoint group_lookup {K} `{EqDecision K} (k : K) (groups : list (K * Z)) : Z :=
  match groups with
  | [] => 0
  | (k', n) :: r => if decide (k' = k) then n else group_lookup k r
  end.

(** Whether a store call returned, and whether a response is a success. *)
Definition returns {A} (r : result A) : bool :=
  match r with Ok _ => true | Throw _ => false end.

Definition succeeds {A} (r : Response A) : bool :=
  match r with Success _ => true | _ => false end.

Definition fragment_engine : StoreEngine := {|
  regex_compile := Fragment.compile;
  cast_oid := Fragment.cast
|}.

(** A store that refuses every filter value that is not a string. *)
Definition strings_only : RawEngine := {|
  cast_raw := fun path _ => Throw (CastError path "object")
|}.

(** ** The other handlers of bugs.ts *)

(** The answers of the handlers that also know 403 and 404. *)
Inductive Answer (A : Type) :=
  | Ok200 (data : A)
  | Bad400 (message : string)
  | Forbidden403 (message : string)
  | Missing404 (message : string).
Arguments Ok200 {A} data.
Arguments Bad400 {A} message.
Arguments Forbidden403 {A} message.
Arguments Missing404 {A} message.

(** The roles of the User schema, and what [authenticateToken] leaves in
    [req.user]: the identifier as a string, and the role. *)
Inductive Role := Admin | Developer | Tester | Manager.

#[global] Instance Role_eq_dec : EqDecision Role.
Proof. solve_decision. Defined.

Record Requester := mkRequester {
  requester_id : string;
  requester_role : Role
}.

(** [findByIdAndDelete]: the first document with the identifier goes. *)
Fixpoint remove_first (id : ObjectId) (l : list Bug) : list Bug :=
  match l with
  | [] => []
  | b :: r => if bool_decide (bug_id b = id) then r else b :: remove_first id r
  end.

(** The permission test of [DELETE /api/bugs/:id] (bugs.ts, lines 559-567). *)
Definition canDelete (user : Requester) (bug : Bug) : bool :=
  bool_decide (requester_role user = Admin)
  || bool_decide (requester_role user = Manager)
  || String.eqb (oid_to_string (reporter bug)) (requester_id user).

Section ById.
Context `{StoreEngine}.

(** [mongoose.Types.ObjectId.isValid(s)] for a string: whether the
    ObjectId constructor, which is also the cast, accepts it. *)
Definition ObjectId_isValid (s : string) : bool := bool_decide (is_Some (cast_oid s)).

(** [Bug.findById(s)] for a string the cast accepts. *)
Definition findByIdString (s : string) (db : Store) : option Bug :=
  o ← cast_oid s; findById o db.

(** [GET /api/bugs/:id] (bugs.ts, lines 337-370). *)
Definition getBug (id : string) (db : Store) : Answer Bug :=
  if negb (ObjectId_isValid id) then Bad400 "Invalid bug ID"
  else match findByIdString id db with
       | None => Missing404 "Bug not found"
       | Some bug => Ok200 bug
       end.

(** [DELETE /api/bugs/:id] (bugs.ts, lines 540-591); the data of a
    success is the store after the deletion. *)
Definition deleteBug (user : Requester) (id : string) (db : Store) : Answer Store :=
  if negb (ObjectId_isValid id) then Bad400 "Invalid bug ID"
  else match findByIdString id db with
       | None => Missing404 "Bug not found"
       | Some bug =>
           if negb (canDelete user bug)
           then Forbidden403 "You can only delete bugs that you created"
           else Ok200 {| bugs := remove_first (bug_id bug) (bugs db); users := users db |}
       end.

End ById.

(** [GET /api/bugs/stats/overview] (bugs.ts, lines 596-656): the three
    counts and the three charts, each chart grouped by value and sorted by
    it.  The [resolveRate] of the response is a rounded floating-point
    quotient and is not part of this record. *)
Fixpoint insert_by_name (g : string * Z) (l : list (string * Z)) : list (string * Z) :=
  match l with
  | [] => [g]
  | x :: r => if (g.1 <=? x.1)%string then g :: l else x :: insert_by_name g r
  end.

Definition chart {K} `{EqDecision K} (name : K -> string) (key : Bug -> K)
    (l : list Bug) : list (string * Z) :=
  foldr insert_by_name [] (map (fun item => (name item.1, item.2)) (groupCount key l)).

Record Overview := mkOverview {
  ov_totalBugs : Z;
  ov_openBugs : Z;
  ov_closedBugs : Z;
  ov_status : list (string * Z);
  ov_priority : list (string * Z);
  ov_type : list (string * Z)
}.

Definition statsOverview (db : Store) : Overview :=
  {| ov_totalBugs := countWhere (fun _ => true) db;
     ov_openBugs := countWhere (fun b => negb (has_status Closed b)) db;
     ov_closedBugs := countWhere (has_status Closed) db;
     ov_status := chart status_name status (bugs db);
     ov_priority := chart priority_name priority (bugs db);
     ov_type := chart type_name type (bugs db) |}.

(** The groups of the trend pipeline before they are rendered. *)
Definition monthlyGroups (since : Z) (db : Store) : list (Z * Z * Z) :=
  foldr insert_month []
    (groupCount (fun b => (JsDate.year_of (createdAt b), JsDate.month_of (createdAt b)))
                (List.filter (fun b => since <=? createdAt b) (bugs db))).

(** The groups of the assignee pipeline before [$limit]. *)
Definition assigneeGroups (db : Store) : list (ObjectId * string * Z) :=
  foldr insert_by_count []
    (fold_left (fun gs '(k, name) => bump_named k name gs)
       (omap (fun b => u ← populate db (assignedTo b);
                       Some (user_id u, display_name (Some u) "")) (bugs db)) []).

(** ** The client's calls ([utils/api]: [bugsApi], [authApi]) *)

Module Client.

(** [BugFilters]: every property is optional. *)
Record BugFilters := mkFilters {
  f_status : option string;
  f_priority : option string;
  f_assigneeId : option string;
  f_search : option string
}.

(** [if (v) params.append(k, v)], where [v] may be undefined. *)
Definition append_truthy (k : string) (v : option string)
    (params : gmap string string) : gmap string string :=
  match v with
  | Some s => if Js.truthy s then <[k := s]> params else params
  | None => params
  end.

(** The assignee branch: the sentinel [unassigned] becomes
    [unassigned=true], any other identifier becomes [assignedTo]. *)
Definition append_assignee (v : option string)
    (params : gmap string string) : gmap string string :=
  match v with
  | Some a =>
      if Js.truthy a then
        if String.eqb a "unassigned" then <["unassigned" := "true"]> params
        else <["assignedTo" := a]> params
      else params
  | None => params
  end.

(** The query of [bugsApi.getBugs(filters, page, limit)]; [filters] may be
    undefined. *)
Definition getBugsParams (filters : option BugFilters) (page limit : Z)
    : gmap string string :=
  let params := ∅ in
  let params := <["page" := Js.number_to_string page]> params in
  let params := <["limit" := Js.number_to_string limit]> params in
  let params := append_truthy "search" (filters ≫= f_search) params in
  let params := append_truthy "status" (filters ≫= f_status) params in
  let params := append_truthy "priority" (filters ≫= f_priority) params in
  append_assignee (filters ≫= f_assigneeId) params.

(** The query of [bugsApi.exportBugs(filters)]. *)
Definition exportBugsParams (filters : option BugFilters) : gmap string string :=
  let params := ∅ in
  let params := append_truthy "search" (filters ≫= f_search) params in
  let params := append_truthy "status" (filters ≫= f_status) params in
  let params := append_truthy "priority" (filters ≫= f_priority) params in
  append_assignee (filters ≫= f_assigneeId) params.

(** The pagination object as it arrives: any property may be missing
    ([response.data.data?.pagination || {}]). *)
Record WirePagination := mkWire {
  w_currentPage : option Z;
  w_totalPages : option Z;
  w_totalCount : option Z;
  w_hasNext : option bool;
  w_hasPrev : option bool
}.

Definition wire (p : Pagination) : WirePagination :=
  {| w_currentPage := Some (currentPage p);
     w_totalPages := Some (totalPages p);
     w_totalCount := Some (totalCount p);
     w_hasNext := Some (hasNext p);
     w_hasPrev := Some (hasPrev p) |}.

(** [x || d] for a number and for a boolean that may be undefined. *)
Definition num_or (x : option Z) (d : Z) : Z :=
  match x with
  | Some 0 | None => d
  | Some n => n
  end.

Definition bool_or (x : option bool) (d : bool) : bool :=
  match x with
  | Some true => true
  | _ => d
  end.

(** The pagination that [getBugs] returns; [shown] is the number of bugs
    of the page. *)
Definition clientPagination (w : WirePagination) (shown : Z) : Pagination :=
  {| currentPage := num_or (w_currentPage w) 1;
     totalPages := num_or (w_totalPages w) 1;
     totalCount := num_or (w_totalCount w) shown;
     hasNext := bool_or (w_hasNext w) false;
     hasPrev := bool_or (w_hasPrev w) false |}.

(** [s.split(sep)] for a one-character separator. *)
Fixpoint split (sep : ascii) (s : string) : list string :=
  match s with
  | EmptyString => [EmptyString]
  | String c r =>
      if Ascii.eqb c sep then EmptyString :: split sep r
      else match split sep r with
           | h :: t => String c h :: t
           | [] => [String c EmptyString]
           end
  end.

(** The first and last name that [authApi.register] sends for a name. *)
Definition registerNames (name : string) : string * string :=
  let parts := split " "%char name in
  let first := hd EmptyString parts in
  let rest := Js.join " " (tl parts) in
  (first, if Js.truthy rest then rest else first).

End Client.

(** What reaches the wire of an optional text that is appended only when
    truthy. *)
Definition sent (v : option string) : option string :=
  match v with
  | Some s => if Js.truthy s then Some s else None
  | None => None
  end.

(** The page of a listing response, empty for a response that has none. *)
Definition listed_of (r : Response Listing) : list Bug :=
  match r with
  | Success data => listed data
  | _ => []
  end.

(** Most recently created first. *)
Definition newer_first (a b : Bug) : Prop := createdAt b <= createdAt a.

(** ** Orders of the sorted results *)

(** [$sort: { count: -1 }]: a group stands before the groups that count
    no more. *)
Definition by_count_desc (a b : ObjectId * string * Z) : Prop := b.2 <= a.2.

(** The bugs counted by the groups of the assignee pipeline. *)
Definition total3 (groups : list (ObjectId * string * Z)) : Z :=
  fold_right (fun g acc => g.2 + acc) 0 groups.

(** [$sort] by year, then month, ascending: an earlier month stands
    first. *)
Definition month_before (a b : Z * Z * Z) : Prop :=
  a.1.1 < b.1.1 \/ (a.1.1 = b.1.1 /\ a.1.2 < b.1.2).

(** [$sort: { _id: 1 }] on the charts of the overview. *)
Definition name_le (a b : string * Z) : Prop := (a.1 <=? b.1)%string = true.

(** ** Sample data for the concrete evaluations *)

Module Sample.

Definition oid (h : hexdigit) : ObjectId := replicate 24 h.

Definition ann : User := mkUser (oid xa) "Ann" "Lee".

Definition bug_abc : Bug :=
  mkBug (oid x1) "abc" "first" Low Open TBug None (oid xa) None 1000 1000.

Definition bug_login : Bug :=
  mkBug (oid x2) "LOGIN page broken" "cannot sign in" High Closed TBug
        (Some (oid xa)) (oid xa) None 2000 2000.

Definition db : Store := mkStore [bug_abc; bug_login] [ann].

Definition empty_db : Store := mkStore [] [].

Definition ann_id : string := "aaaaaaaaaaaaaaaaaaaaaaaa".

(** [?unassigned=true&assignedTo=<ann>]. *)
Definition q_unassigned : gmap string string :=
  <["unassigned" := "true"]> (<["assignedTo" := ann_id]> ∅).

(** [?status=open]. *)
Definition q_open : gmap string string := <["status" := "open"]> ∅.

(** [?search=] followed by nothing, by one space, and by [a.c]. *)
Definition q_search_empty : gmap string string := <["search" := ""]> ∅.
Definition q_search_blank : gmap string string := <["search" := " "]> ∅.
Definition q_search_dot : gmap string string := <["search" := "a.c"]> ∅.

(** A clock that advances by a quarter of a second between the two
    reads of one analytics invocation, the first at
    2024-08-31T00:00:00.000Z; and three bugs: one created exactly seven
    days before the first read, one a millisecond earlier, one a tenth
    of a second after the instant six months before the first read. *)
Definition t1 : Z := 1725062400000.

(** A zone two hours ahead of UTC until 2024-10-27T01:00:00Z and one hour
    ahead from then on; a local time that occurs twice is read as the
    earlier instant. *)
Definition zone : JsDate.TimeZone :=
  JsDate.mkTimeZone (fun t isUTC =>
    if t <? (if isUTC then 1729990800000 else 1729990800000 + 7200000)
    then 7200000 else 3600000).

Definition clock : Clock := fun k => match k with O => t1 | S _ => t1 + 250 end.

Definition bug_week : Bug :=
  mkBug (oid x3) "week" "w" Low Open TBug None (oid xa) None 1724457600000 1724457600000.

Definition bug_before_week : Bug :=
  mkBug (oid x4) "older" "o" Low Open TBug None (oid xa) None 1724457599999 1724457599999.

Definition bug_march : Bug :=
  mkBug (oid x5) "march" "m" Low Open TBug None (oid xa) None 1709337600100 1709337600100.

Definition db_windows : Store := mkStore [bug_week; bug_before_week; bug_march] [ann].

(** The bodies [{ status: 'closed' }] and [{ status: 'reopened' }]. *)
Definition close_body : UpdateBody :=
  mkUpdateBody None None None (Some Closed) None None None.
Definition reopen_body : UpdateBody :=
  mkUpdateBody None None None (Some Reopened) None None None.

(** A closed bug as the save hook leaves it. *)
Definition bug_closed : Bug :=
  mkBug (oid x6) "done" "d" Low Closed TBug None (oid xa) (Some 3000) 1000 3000.

Definition db_closed : Store := mkStore [bug_closed] [ann].

(** A developer who reported nothing, an administrator, and the reporter
    of the sample bugs. *)
Definition dev : Requester := mkRequester "bbbbbbbbbbbbbbbbbbbbbbbb" Developer.
Definition admin : Requester := mkRequester "cccccccccccccccccccccccc" Admin.
Definition ann_user : Requester := mkRequester ann_id Tester.
Definition abc_id : string := "111111111111111111111111".

(** [?limit=1] and [?page=2&limit=1]. *)
Definition q_limit_one : gmap string string := <["limit" := "1"]> ∅.
Definition q_page_two : gmap string string := <["page" := "2"]> (<["limit" := "1"]> ∅).

(** A creation with a due date, and the client filters "open bugs
    without assignee". *)
Definition new_body : CreateBody :=
  mkCreateBody "new" "n" High None (Some ann_id) (Some (Some 9000)).
Definition new_save : SaveInputs := mkSaveInputs (oid x9) 5000 5001 true true.
Definition filters_open_unassigned : Client.BugFilters :=
  Client.mkFilters (Some "open") None (Some "unassigned") None.

(** [?assignedTo=abc] and [?status=bogus]. *)
Definition q_bad_assignee : gmap string string := <["assignedTo" := "abc"]> ∅.
Definition q_bad_status : gmap string string := <["status" := "bogus"]> ∅.

(** An identifier of 24 characters with the prefix that validator.js
    allows in a hexadecimal number. *)
Definition prefixed_id : string := "0x1111111111111111111111".

(** A bug whose description is the text He said, followed by fix it
    between double quotes. *)
Definition bug_quote : Bug :=
  mkBug (oid x7) "quote" ("He said, " +:+ quoted "fix it") Low Open TBug None (oid xa) None
        1000 1000.

Definition db_quote : Store := mkStore [bug_quote] [ann].

End Sample.

(** * Properties *)

(** ** Lists, sorting and the filter objects *)

Lemma length_insert_desc b l : length (insert_desc b l) = S (length l).
Proof.
  induction l as [|x r IH]; simpl; [done|].
  destruct (createdAt x <=? createdAt b); simpl; by rewrite ?IH.
Qed.

Lemma length_sortCreatedDesc l : length (sortCreatedDesc l) = length l.
Proof.
  induction l as [|b r IH]; simpl; [done|].
  by rewrite length_insert_desc, IH.
Qed.

Lemma filter_and_unassigned (p1 p2 p3 p5 p6 : Bug -> bool) l :
  List.filter (fun b => p1 b && p2 b && p3 b && bool_decide (assignedTo b = None)
                        && p5 b && p6 b) l
  = List.filter unassigned
      (List.filter (fun b => p1 b && p2 b && p3 b && true && p5 b && p6 b) l).
Proof.
  induction l as [|b r IH]; simpl; [done|].
  rewrite IH.
  destruct (p1 b), (p2 b), (p3 b), (p5 b), (p6 b); simpl; try done;
    unfold unassigned at 1 3; by destruct (bool_decide (assignedTo b = None)).
Qed.

Lemma copy_lookup_eq k q filter :
  copy_if_truthy k q filter !! k
  = match truthy_val (q !! k) with Some v => Some v | None => filter !! k end.
Proof.
  unfold copy_if_truthy, truthy_val.
  destruct (q !! k) as [v|]; [destruct (Js.truthy v)|]; by rewrite ?lookup_insert_eq.
Qed.

Lemma copy_lookup_ne k i q filter :
  k <> i -> copy_if_truthy k q filter !! i = filter !! i.
Proof.
  intros Hne. unfold copy_if_truthy.
  destruct (q !! k) as [v|]; [destruct (Js.truthy v)|]; by rewrite ?lookup_insert_ne.
Qed.

(** Reads one key of a filter under construction; the keys that differ are
    told apart by [congruence]. *)
Ltac filter_lookup :=
  cbv zeta;
  repeat first
    [ rewrite lookup_insert_eq
    | rewrite lookup_insert_ne by congruence
    | rewrite copy_lookup_eq
    | rewrite copy_lookup_ne by congruence
    | rewrite lookup_empty ];
  repeat match goal with
  | |- context [truthy_val ?v] => destruct (truthy_val v)
  end;
  try done.

Lemma listFilter_lookup q i : listFilter q !! i = filter_entry q i.
Proof.
  unfold listFilter, filter_entry.
  destruct (decide (i = "$or")) as [->|Hor].
  { destruct (q !! "search") as [s|]; simpl; [destruct (Js.truthy s)|];
      destruct (bool_decide (q !! "unassigned" = Some "true")); filter_lookup. }
  destruct (decide (i = "assignedTo")) as [->|Has].
  { destruct (q !! "search") as [s|]; simpl; [destruct (Js.truthy s)|];
      destruct (bool_decide (q !! "unassigned" = Some "true")); filter_lookup. }
  destruct (decide (i ∈ ["status"; "priority"; "type"; "reporter"])) as [Hin|Hout].
  - apply list_elem_of_In in Hin; simpl in Hin.
    destruct Hin as [<-|[<-|[<-|[<-|[]]]]];
      (destruct (q !! "search") as [s|]; simpl; [destruct (Js.truthy s)|];
       destruct (bool_decide (q !! "unassigned" = Some "true")); filter_lookup).
  - assert (i <> "status" /\ i <> "priority" /\ i <> "type" /\ i <> "reporter")
      as (H1 & H2 & H3 & H4).
    { repeat split; intros ->; apply Hout, list_elem_of_In; simpl; tauto. }
    destruct (q !! "search") as [s|]; simpl; [destruct (Js.truthy s)|];
      destruct (bool_decide (q !! "unassigned" = Some "true")); filter_lookup.
Qed.

Lemma exportFilter_is_listFilter q : exportFilter q = listFilter q.
Proof. reflexivity. Qed.

Lemma listFilter_ignores_assignedTo q a :
  q !! "unassigned" = Some "true" ->
  listFilter (<["assignedTo" := a]> q) = listFilter q.
Proof.
  intros Hu. apply map_eq; intros i. rewrite !listFilter_lookup. unfold filter_entry.
  rewrite !(lookup_insert_ne q "assignedTo" "search") by done.
  rewrite !(lookup_insert_ne q "assignedTo" "unassigned") by done.
  rewrite Hu, bool_decide_eq_true_2 by done.
  destruct (decide (i = "$or")); [done|].
  destruct (decide (i = "assignedTo")); [done|].
  by rewrite lookup_insert_ne by congruence.
Qed.

Lemma listFilter_without_assignee_keys q :
  q !! "unassigned" = Some "true" ->
  listFilter q = <["assignedTo" := FNull]> (listFilter (without_assignee_keys q)).
Proof.
  intros Hu. apply map_eq; intros i.
  rewrite lookup_insert, !listFilter_lookup. unfold filter_entry, without_assignee_keys.
  rewrite Hu, bool_decide_eq_true_2 by done.
  destruct (decide ("assignedTo" = i)) as [<-|Hne].
  - destruct (decide ("assignedTo" = "$or")); [discriminate|].
    destruct (decide ("assignedTo" = "assignedTo")) as [_|Hne]; [done | by destruct Hne].
  - destruct (decide (i = "assignedTo")); [congruence|].
    destruct (decide (i = "$or")) as [->|].
    + by rewrite !lookup_delete_ne by done.
    + destruct (decide (i ∈ _)) as [Hin|]; [|done].
      rewrite !lookup_delete_ne; [done | congruence |].
      intros <-. apply list_elem_of_In in Hin; simpl in Hin.
      destruct Hin as [?|[?|[?|[?|[]]]]]; discriminate.
Qed.

Lemma listFilter_rest_has_no_assignee q :
  listFilter (without_assignee_keys q) !! "assignedTo" = None.
Proof.
  rewrite listFilter_lookup. unfold filter_entry, without_assignee_keys. simpl.
  rewrite lookup_delete_eq. rewrite bool_decide_eq_false_2 by done.
  by rewrite lookup_delete_ne, lookup_delete_eq by done.
Qed.

(** The validator chain reads eight parameters; two queries that agree on
    what fails produce the same errors. *)
Lemma validationResult_ext q q' :
  (forall c, In c Validator.chain -> Validator.fails q c = Validator.fails q' c) ->
  Validator.validationResult q = Validator.validationResult q'.
Proof.
  intros Hext. unfold Validator.validationResult. f_equal.
  by apply List.filter_ext_in.
Qed.

Lemma validationResult_assignedTo q a :
  Validator.isMongoId a = true ->
  Validator.validationResult (<["assignedTo" := a]> q)
  = Validator.validationResult (delete "assignedTo" q).
Proof.
  intros Ha. apply validationResult_ext. intros c Hc. simpl in Hc.
  destruct Hc as [<-|[<-|[<-|[<-|[<-|[<-|[<-|[<-|[]]]]]]]]]; unfold Validator.fails; simpl;
    rewrite ?lookup_insert_eq, ?lookup_delete_eq;
    rewrite ?lookup_insert_ne, ?lookup_delete_ne by done; try done.
  by rewrite Ha.
Qed.

Lemma listFilter_delete_assignedTo q :
  q !! "unassigned" = Some "true" ->
  listFilter (delete "assignedTo" q) = listFilter q.
Proof.
  intros Hu. apply map_eq; intros i. rewrite !listFilter_lookup. unfold filter_entry.
  rewrite !(lookup_delete_ne q "assignedTo" "search") by done.
  rewrite !(lookup_delete_ne q "assignedTo" "unassigned") by done.
  rewrite Hu, bool_decide_eq_true_2 by done.
  destruct (decide (i = "$or")); [done|].
  destruct (decide (i = "assignedTo")); [done|].
  by rewrite lookup_delete_ne by congruence.
Qed.

Section StoreFacts.
Context `{StoreEngine}.

Lemma find_insert_null filter db :
  filter !! "assignedTo" = None ->
  find (<["assignedTo" := FNull]> filter) db
  = rmap (List.filter unassigned) (find filter db).
Proof.
  intros Hnone. unfold find, castFilter.
  rewrite lookup_insert_eq, !lookup_insert_ne, Hnone by done.
  destruct (cast_string_path "status" _ _) as [p1|]; [|done].
  destruct (cast_string_path "priority" _ _) as [p2|]; [|done].
  destruct (cast_string_path "type" _ _) as [p3|]; [|done]. simpl.
  destruct (cast_oid_path "reporter" _ _) as [p5|]; [|done].
  destruct (cast_or _) as [p6|]; [|done]. simpl. f_equal.
  apply filter_and_unassigned.
Qed.

Lemma count_is_length_of_find filter db :
  countDocuments filter db = rmap (fun l => Z.of_nat (length l)) (find filter db).
Proof. unfold countDocuments, find. by destruct (castFilter filter). Qed.

Lemma find_empty db : find ∅ db = Ok (List.filter (fun _ => true) (bugs db)).
Proof. reflexivity. Qed.

End StoreFacts.

Lemma filter_true {A} (l : list A) : List.filter (fun _ => true) l = l.
Proof. induction l; simpl; congruence. Qed.

(** ** The unassigned filter *)

Lemma insert_desc_perm b l : insert_desc b l ≡ₚ b :: l.
Proof.
  induction l as [|x r IH]; simpl; [done|].
  destruct (createdAt x <=? createdAt b); [done|].
  rewrite IH. apply Permutation_swap.
Qed.

Lemma sortCreatedDesc_perm l : sortCreatedDesc l ≡ₚ l.
Proof.
  induction l as [|b r IH]; simpl; [done|].
  by rewrite insert_desc_perm, IH.
Qed.

Lemma window_sublist skip limit l : window skip limit l `sublist_of` l.
Proof. unfold window. etrans; [apply sublist_take | apply sublist_drop]. Qed.

Lemma validation_passes q c :
  Validator.validationResult q = [] -> In c Validator.chain -> Validator.fails q c = false.
Proof.
  unfold Validator.validationResult. intros Hnil Hc.
  apply map_eq_nil in Hnil.
  destruct (Validator.fails q c) eqn:Hf; [|done].
  assert (In c (List.filter (Validator.fails q) Validator.chain)) as Hin
    by (apply List.filter_In; by split).
  rewrite Hnil in Hin. destruct Hin.
Qed.

Lemma validationResult_nil q :
  (forall c, In c Validator.chain -> Validator.fails q c = false) ->
  Validator.validationResult q = [].
Proof.
  intros Hall. unfold Validator.validationResult.
  replace (List.filter (Validator.fails q) Validator.chain) with (@nil (string * (string -> bool)));
    [done|].
  symmetry. induction Validator.chain as [|c l IH]; simpl; [done|].
  rewrite (Hall c) by (by left). apply IH. intros c' Hc'. apply Hall. by right.
Qed.

Lemma validationResult_delete_assignedTo q :
  Validator.validationResult q = [] ->
  Validator.validationResult (delete "assignedTo" q) = [].
Proof.
  intros Hvalid. apply validationResult_nil. intros c Hc.
  pose proof (validation_passes q c Hvalid Hc) as Hq. simpl in Hc.
  destruct Hc as [<-|[<-|[<-|[<-|[<-|[<-|[<-|[<-|[]]]]]]]]]; unfold Validator.fails in *;
    simpl in *; rewrite ?lookup_delete_eq; rewrite ?lookup_delete_ne by done; done.
Qed.

Lemma validationResult_bad_assignedTo q a :
  Validator.validationResult q = [] ->
  Validator.isMongoId a = false ->
  Validator.validationResult (<["assignedTo" := a]> q) = ["assignedTo"].
Proof.
  intros Hvalid Ha.
  assert (forall c, In c Validator.chain -> c.1 <> "assignedTo" ->
                    Validator.fails (<["assignedTo" := a]> q) c = false) as Hrest.
  { intros c Hc Hne. transitivity (Validator.fails q c); [|by apply validation_passes].
    unfold Validator.fails. by rewrite lookup_insert_ne by (by apply not_eq_sym). }
  assert (Validator.fails (<["assignedTo" := a]> q) ("assignedTo", Validator.isMongoId) = true)
    as Hbad by (unfold Validator.fails; cbn [fst snd]; by rewrite lookup_insert_eq, Ha).
  unfold Validator.validationResult, Validator.chain.
  cbn [List.filter]. rewrite Hbad.
  rewrite !Hrest by (first [ discriminate | simpl; tauto ]).
  reflexivity.
Qed.

Section Unassigned.
Context `{StoreEngine}.

(** C1, amended.  For a query that passes the validator chain and in
    which [unassigned] is the string "true": the listing reads the bugs
    that meet the other constraints of the query, keeps of them exactly
    those without an assignee, and answers with the requested page of
    these, most recently created first, and with their number as
    [totalCount]; it fails only if the read for the other constraints
    fails.  With no other constraint these are all the bugs without an
    assignee.  The response is the same whatever well-formed [assignedTo]
    is supplied, or none; a malformed one is refused by the chain before
    the filter is built. *)
Theorem unassigned_overrides_assignedTo (q : gmap string string) (db : Store) :
  q !! "unassigned" = Some "true" ->
  Validator.validationResult q = [] ->
  let page := Js.parseIntOr (q !! "page") 1 in
  let limit := Js.parseIntOr (q !! "limit") 10 in
  let answer (others : list Bug) : Response Listing :=
    let matches := sortCreatedDesc (List.filter unassigned others) in
    Success {| listed := window ((page - 1) * limit) limit matches;
               pagination := paginate (Z.of_nat (length matches)) page limit |} in
  match find (listFilter (without_assignee_keys q)) db with
  | Ok others => listing q db = answer others
  | Throw _ => listing q db = Failed "Failed to fetch bugs"
  end
  /\ (listFilter (without_assignee_keys q) = ∅ -> listing q db = answer (bugs db))
  /\ (forall r b, listing q db = Success r -> b ∈ listed r -> b ∈ bugs db /\ assignedTo b = None)
  /\ listFilter q !! "assignedTo" = Some FNull
  /\ (forall a, Validator.isMongoId a = true ->
        listing (<["assignedTo" := a]> q) db = listing q db
        /\ listing (delete "assignedTo" q) db = listing q db)
  /\ (forall a, Validator.isMongoId a = false ->
        listing (<["assignedTo" := a]> q) db
        = Invalid "Invalid query parameters" ["assignedTo"]).
Proof.
  intros Hu Hvalid page limit answer.
  assert (match find (listFilter (without_assignee_keys q)) db with
          | Ok others => listing q db = answer others
          | Throw _ => listing q db = Failed "Failed to fetch bugs"
          end) as Hanswer.
  { unfold listing. rewrite Hvalid, count_is_length_of_find.
    rewrite (listFilter_without_assignee_keys q Hu).
    rewrite find_insert_null by apply listFilter_rest_has_no_assignee.
    destruct (find (listFilter (without_assignee_keys q)) db) as [others|]; simpl; [|done].
    unfold answer. by rewrite length_sortCreatedDesc. }
  assert (listing (delete "assignedTo" q) db = listing q db) as Hdelete.
  { unfold listing. rewrite Hvalid, (validationResult_delete_assignedTo q Hvalid).
    rewrite (listFilter_delete_assignedTo q Hu).
    by rewrite !lookup_delete_ne by done. }
  split; [exact Hanswer|]. split; [|split; [|split; [|split]]].
  - intros Hrest. rewrite Hrest, find_empty, filter_true in Hanswer. exact Hanswer.
  - intros r b Hr Hb.
    destruct (find (listFilter (without_assignee_keys q)) db) as [others|] eqn:Hfind;
      [|congruence].
    rewrite Hanswer in Hr. unfold answer in Hr. injection Hr as <-. simpl in Hb.
    eapply elem_of_sublist in Hb; [|apply window_sublist].
    rewrite sortCreatedDesc_perm in Hb.
    apply list_elem_of_In, filter_In in Hb as [Hin Hun].
    unfold find in Hfind. destruct (castFilter _) as [p|]; [|done]. injection Hfind as <-.
    apply filter_In in Hin as [Hin _].
    split; [by apply list_elem_of_In|]. by apply bool_decide_eq_true_1 in Hun.
  - rewrite listFilter_lookup. unfold filter_entry. simpl.
    by rewrite Hu, bool_decide_eq_true_2.
  - intros a Ha. split; [|exact Hdelete]. rewrite <- Hdelete. unfold listing.
    rewrite (validationResult_assignedTo q a Ha).
    rewrite (listFilter_ignores_assignedTo q a Hu).
    rewrite (listFilter_delete_assignedTo q Hu).
    by rewrite !lookup_insert_ne, !lookup_delete_ne by done.
  - intros a Ha. unfold listing. by rewrite (validationResult_bad_assignedTo q a Hvalid Ha).
Qed.

End Unassigned.

Lemma unassigned_overrides_assignedTo_witness :
  @listing fragment_engine Sample.q_unassigned Sample.db
  = Success {| listed := [Sample.bug_abc]; pagination := paginate 1 1 10 |}.
Proof.
  destruct (@unassigned_overrides_assignedTo fragment_engine Sample.q_unassigned Sample.db)
    as (_ & Hall & _); [reflexivity | reflexivity |].
  apply Hall. reflexivity.
Defined.

(** C1, as stated, fails for an [assignedTo] that the validator chain
    refuses: the request is answered with the client-input error and no
    record, although the store holds a bug without an assignee. *)
Lemma malformed_assignee_is_refused_despite_the_flag :
  (<["unassigned" := "true"]> Sample.q_bad_assignee : gmap string string) !! "unassigned"
  = Some "true"
  /\ @listing fragment_engine (<["unassigned" := "true"]> Sample.q_bad_assignee) Sample.db
     = Invalid "Invalid query parameters" ["assignedTo"]
  /\ List.filter unassigned (bugs Sample.db) = [Sample.bug_abc].
Proof. repeat split; reflexivity. Qed.

(** ** Listing and export measure the same set *)

Section SamePredicate.
Context `{StoreEngine}.

(** C3.  For a query that passes the listing's validation, the listing
    and the export build the same predicate; over one store state the
    [totalCount] of the listing is the number of rows the export reads,
    and the listing fails exactly when the export's read fails. *)
Theorem listing_count_is_export_count (q : gmap string string) (db : Store) :
  Validator.validationResult q = [] ->
  listFilter q = exportFilter q
  /\ match exportRows q db with
     | Ok rows =>
         exists r, listing q db = Success r
                   /\ totalCount (pagination r) = Z.of_nat (length rows)
     | Throw _ => listing q db = Failed "Failed to fetch bugs"
     end.
Proof.
  intros Hvalid. split; [symmetry; apply exportFilter_is_listFilter|].
  unfold exportRows, listing. rewrite Hvalid.
  change (exportFilter q) with (listFilter q).
  rewrite count_is_length_of_find.
  destruct (find (listFilter q) db) as [found|e]; simpl; [|done].
  eexists. split; [reflexivity|]. simpl.
  by rewrite length_sortCreatedDesc.
Qed.

End SamePredicate.

Lemma listing_count_is_export_count_witness :
  listFilter Sample.q_open = exportFilter Sample.q_open
  /\ exists r, @listing fragment_engine Sample.q_open Sample.db = Success r
               /\ totalCount (pagination r) = 1.
Proof.
  destruct (@listing_count_is_export_count fragment_engine Sample.q_open Sample.db)
    as [Hsame Hcount].
  - reflexivity.
  - split; [exact Hsame | exact Hcount].
Defined.

(** ** The pagination envelope *)

(** C2, as stated, fails when nothing matches: the envelope then reports
    zero pages, not one. *)
Lemma no_match_reports_zero_pages :
  @listing fragment_engine ∅ Sample.empty_db
  = Success {| listed := [];
               pagination := {| currentPage := 1; totalPages := 0; totalCount := 0;
                                hasNext := false; hasPrev := false |} |}
  /\ totalPages (paginate 0 1 10) <> 1.
Proof. split; [reflexivity | discriminate]. Qed.

Lemma Math_ceil_div_spec a b :
  0 < b -> (Math_ceil_div a b - 1) * b < a <= Math_ceil_div a b * b.
Proof.
  intros Hb. unfold Math_ceil_div.
  pose proof (Z.div_mod (- a) b ltac:(lia)) as Hdm.
  pose proof (Z.mod_pos_bound (- a) b Hb) as Hm.
  nia.
Qed.

Lemma isInt_parseIntOr lo hi s d :
  1 <= lo -> Validator.isInt lo hi s = true ->
  lo <= Js.parseIntOr (Some s) d
  /\ match hi with Some m => Js.parseIntOr (Some s) d <= m | None => True end.
Proof.
  unfold Validator.isInt, Js.parseIntOr. simpl. intros Hlo Hint.
  apply andb_true_iff in Hint as [_ Hint].
  destruct (Js.parseInt s) as [n|]; [|done].
  apply andb_true_iff in Hint as [Hmin Hmax]. apply Z.leb_le in Hmin.
  destruct n as [|n|n]; try lia.
  split; [lia|]. destruct hi as [m|]; [by apply Z.leb_le | done].
Qed.

(** The envelope of a listing is [paginate] at the count of the matching
    bugs, a page of at least 1 and a page size in 1..100. *)
Section Envelope.
Context `{StoreEngine}.

Lemma listing_envelope q db :
Validator.validationResult q = [] ->
let page := Js.parseIntOr (q !! "page") 1 in
let limit := Js.parseIntOr (q !! "limit") 10 in
1 <= page /\ 1 <= limit <= 100
/\ forall r, listing q db = Success r ->
     exists N, 0 <= N /\ countDocuments (listFilter q) db = Ok N
               /\ pagination r = paginate N page limit.
Proof.
intros Hvalid page limit.
pose proof (validation_passes q ("page", Validator.isInt 1 None) Hvalid) as Hpage.
pose proof (validation_passes q ("limit", Validator.isInt 1 (Some 100)) Hvalid) as Hlimit.
unfold Validator.fails in Hpage, Hlimit. simpl in Hpage, Hlimit.
split; [|split].
- subst page. destruct (q !! "page") as [s|]; [|done].
  apply (isInt_parseIntOr 1 None s 1); [lia|].
  apply negb_false_iff, Hpage. simpl. tauto.
- subst limit. destruct (q !! "limit") as [s|]; [|done].
  apply (isInt_parseIntOr 1 (Some 100) s 10); [lia|].
  apply negb_false_iff, Hlimit. simpl. tauto.
- intros r. unfold listing. rewrite Hvalid.
  rewrite count_is_length_of_find.
  destruct (find (listFilter q) db) as [found|]; simpl; [|done].
  intros [= <-]. eexists. split; [|split; reflexivity]. lia.
Qed.
End Envelope.

(** C2, amended.  For a total count [N >= 0], a page [p >= 1] and a page
    size [s] in 1..100: [totalPages] is the ceiling of [N / s], the least
    [k] with [N <= k * s], hence 0 when [N = 0]; [hasNext] holds iff
    [p < totalPages]; [hasPrev] holds iff [p > 1]; [currentPage] is [p]
    as requested, and [totalCount] is [N]. *)
Theorem pagination_envelope (N p s : Z) :
  0 <= N -> 1 <= p -> 1 <= s <= 100 ->
  let e := paginate N p s in
  (totalPages e - 1) * s < N <= totalPages e * s
  /\ (N = 0 -> totalPages e = 0)
  /\ (hasNext e = true <-> p < totalPages e)
  /\ (hasPrev e = true <-> p > 1)
  /\ currentPage e = p
  /\ totalCount e = N.
Proof.
  intros HN Hp Hs e. subst e. simpl.
  pose proof (Math_ceil_div_spec N s ltac:(lia)) as Hceil.
  split; [exact Hceil|]. split; [intros ->; nia|].
  split; [apply Z.ltb_lt|]. split; [|done].
  rewrite Z.ltb_lt. lia.
Qed.

Lemma pagination_envelope_witness :
  let e := paginate 23 3 10 in
  (totalPages e - 1) * 10 < 23 <= totalPages e * 10
  /\ (23 = 0 -> totalPages e = 0)
  /\ (hasNext e = true <-> 3 < totalPages e)
  /\ (hasPrev e = true <-> 3 > 1)
  /\ currentPage e = 3
  /\ totalCount e = 23.
Proof. apply (pagination_envelope 23 3 10); lia. Defined.

(** ** The search parameter *)

Lemma validationResult_delete_search q :
  Validator.validationResult (delete "search" q) = Validator.validationResult q.
Proof.
  apply validationResult_ext. intros c Hc. simpl in Hc.
  destruct Hc as [<-|[<-|[<-|[<-|[<-|[<-|[<-|[<-|[]]]]]]]]]; unfold Validator.fails; simpl;
    rewrite ?lookup_delete_eq; rewrite ?lookup_delete_ne by done; try done.
  by destruct (q !! "search").
Qed.

Lemma listFilter_delete_empty_search q :
  q !! "search" = Some "" -> listFilter (delete "search" q) = listFilter q.
Proof.
  intros Hs. apply map_eq; intros i. rewrite !listFilter_lookup. unfold filter_entry.
  rewrite lookup_delete_eq, Hs. simpl.
  rewrite !(lookup_delete_ne q "search" "unassigned") by done.
  rewrite !(lookup_delete_ne q "search" "assignedTo") by done.
  destruct (decide (i = "$or")); [done|].
  destruct (decide (i = "assignedTo")); [done|].
  destruct (decide (i ∈ _)) as [Hin|]; [|done].
  rewrite lookup_delete_ne; [done|].
  intros <-. apply list_elem_of_In in Hin; simpl in Hin.
  destruct Hin as [?|[?|[?|[?|[]]]]]; discriminate.
Qed.

(** C5, as stated, fails for a search made of white space: one space is a
    pattern like any other, and only the records whose title or
    description holds a space are listed. *)
Lemma blank_search_is_a_constraint :
  listFilter Sample.q_search_blank !! "$or" = Some (search_clauses " ")
  /\ listFilter (delete "search" Sample.q_search_blank) !! "$or" = None
  /\ @listing fragment_engine Sample.q_search_blank Sample.db
     = Success {| listed := [Sample.bug_login]; pagination := paginate 1 1 10 |}
  /\ @listing fragment_engine (delete "search" Sample.q_search_blank) Sample.db
     = Success {| listed := [Sample.bug_login; Sample.bug_abc]; pagination := paginate 2 1 10 |}.
Proof. repeat split; reflexivity. Qed.

Section Search.
Context `{StoreEngine}.

(** C5, amended.  A search value that is the empty string is treated as
    absent: no constraint enters the predicate and the response is the one
    of the query without it.  Any other value, white space included, is
    stored as the pattern of the two regex clauses. *)
Theorem empty_search_is_absent (q : gmap string string) (db : Store) (s : string) :
  q !! "search" = Some s ->
  (s = "" ->
     listFilter q = listFilter (delete "search" q)
     /\ listFilter q !! "$or" = None
     /\ listing q db = listing (delete "search" q) db)
  /\ (s <> "" -> listFilter q !! "$or" = Some (search_clauses s)).
Proof.
  intros Hs. split.
  - intros ->. split; [|split].
    + symmetry. by apply listFilter_delete_empty_search.
    + rewrite listFilter_lookup. unfold filter_entry. simpl. by rewrite Hs.
    + unfold listing.
      rewrite validationResult_delete_search, (listFilter_delete_empty_search q Hs).
      by rewrite !lookup_delete_ne by done.
  - intros Hne. rewrite listFilter_lookup. unfold filter_entry. simpl. rewrite Hs. simpl.
    destruct s; [done | reflexivity].
Qed.

End Search.

Lemma empty_search_is_absent_witness :
  listFilter Sample.q_search_empty = listFilter (delete "search" Sample.q_search_empty)
  /\ @listing fragment_engine Sample.q_search_empty Sample.db
     = @listing fragment_engine (delete "search" Sample.q_search_empty) Sample.db.
Proof.
  destruct (@empty_search_is_absent fragment_engine Sample.q_search_empty Sample.db "")
    as [Hempty _].
  - reflexivity.
  - destruct (Hempty eq_refl) as (Hf & _ & Hl). split; [exact Hf | exact Hl].
Defined.

(** On literal text the fragment engine is the substring search. *)
Lemma match_here_literal s t :
  Fragment.match_here true (map Fragment.Lit (list_ascii_of_string s)) t = Js.prefix_ci s t.
Proof.
  revert t. induction s as [|c s IH]; intros t; simpl; [done|].
  destruct t as [|d t]; [done|]. simpl. by rewrite IH.
Qed.

Lemma search_literal s t :
  Fragment.search true (map Fragment.Lit (list_ascii_of_string s)) t = Js.substring_ci s t.
Proof.
  induction t as [|d t IH]; simpl; rewrite match_here_literal; [done|].
  by rewrite IH.
Qed.

Lemma parse_literal s :
  literal_text s = true ->
  Fragment.parse s = Some (map Fragment.Lit (list_ascii_of_string s)).
Proof.
  unfold literal_text. induction s as [|c s IH]; simpl; [done|].
  intros Hlit. apply andb_true_iff in Hlit as [Hc Hs].
  apply andb_true_iff in Hc as [Hmeta Hdot].
  apply negb_true_iff in Hmeta, Hdot. rewrite Hmeta, Hdot, (IH Hs). done.
Qed.

Lemma literal_search_is_substring s :
  literal_text s = true ->
  exists m, Fragment.compile s "i" = Some m /\ forall t, m t = Js.substring_ci s t.
Proof.
  intros Hlit. unfold Fragment.compile. rewrite (parse_literal s Hlit). simpl.
  eexists. split; [reflexivity|]. intros t. apply search_literal.
Qed.

(** C4 at the search text [a.c]: the dot is read as a regular-expression
    metacharacter, and the bug titled [abc] is listed although [a.c] is a
    substring neither of its title nor of its description. *)
Lemma dot_in_search_matches_any_character :
  @listing fragment_engine Sample.q_search_dot Sample.db
  = Success {| listed := [Sample.bug_abc]; pagination := paginate 1 1 10 |}
  /\ Js.substring_ci "a.c" (title Sample.bug_abc) = false
  /\ Js.substring_ci "a.c" (description Sample.bug_abc) = false.
Proof. repeat split; reflexivity. Qed.

(** ** The export validates nothing *)

Section StringExport.
Context `{StoreEngine}.

Lemma cast_string_path_truthy path get v :
  returns (cast_string_path path get (truthy_val v)) = true.
Proof. unfold truthy_val. destruct v as [s|]; [destruct (Js.truthy s)|]; done. Qed.

(** Whether the cast of a built filter returns is decided by the two
    identifier paths and the regex clauses alone. *)
Lemma castFilter_returns q :
  returns (castFilter (listFilter q))
  = returns (cast_oid_path "assignedTo" assignedTo (filter_entry q "assignedTo"))
    && returns (cast_oid_path "reporter" (fun b => Some (reporter b)) (filter_entry q "reporter"))
    && returns (cast_or (filter_entry q "$or")).
Proof.
  unfold castFilter. rewrite !listFilter_lookup.
  change (filter_entry q "status") with (truthy_val (q !! "status")).
  change (filter_entry q "priority") with (truthy_val (q !! "priority")).
  change (filter_entry q "type") with (truthy_val (q !! "type")).
  pose proof (cast_string_path_truthy "status" (fun b => status_name (status b)) (q !! "status")).
  pose proof (cast_string_path_truthy "priority" (fun b => priority_name (priority b)) (q !! "priority")).
  pose proof (cast_string_path_truthy "type" (fun b => type_name (type b)) (q !! "type")).
  destruct (cast_string_path "status" _ _); [|done].
  destruct (cast_string_path "priority" _ _); [|done].
  destruct (cast_string_path "type" _ _); [|done]. simpl.
  destruct (cast_oid_path "assignedTo" _ _); [|done]. simpl.
  destruct (cast_oid_path "reporter" _ _); [|done]. simpl.
  by destruct (cast_or _).
Qed.

Lemma truthy_val_nonempty a : a <> "" -> truthy_val (Some a) = Some (FStr a).
Proof. by destruct a. Qed.

Lemma listing_rejects q db c :
  In c Validator.chain -> Validator.fails q c = true ->
  exists errs, listing q db = Invalid "Invalid query parameters" errs /\ c.1 ∈ errs.
Proof.
  intros Hc Hfails. unfold listing.
  assert (c.1 ∈ Validator.validationResult q) as Hin.
  { unfold Validator.validationResult. apply list_elem_of_In, in_map.
    apply List.filter_In. by split. }
  destruct (Validator.validationResult q) as [|e errs] eqn:Herrs.
  - by apply elem_of_nil in Hin.
  - eexists. split; [reflexivity | exact Hin].
Qed.

End StringExport.

Lemma isMongoId_nonempty a : Validator.isMongoId a = true -> a <> "".
Proof. by intros Ha ->. Qed.

Section RawFacts.
Context `{StoreEngine} `{RawEngine}.

(** Whether the cast of a filter returns is decided path by path. *)
Lemma castFilterRaw_returns filter :
  returns (castFilterRaw filter)
  = returns (cast_value "status" (cast_string_path "status" (fun b => status_name (status b)))
                        (Some <$> rf_status filter))
    && returns (cast_value "priority"
                           (cast_string_path "priority" (fun b => priority_name (priority b)))
                           (Some <$> rf_priority filter))
    && returns (cast_value "type" (cast_string_path "type" (fun b => type_name (type b)))
                           (Some <$> rf_type filter))
    && returns (cast_value "assignedTo" (cast_oid_path "assignedTo" assignedTo)
                           (rf_assignedTo filter))
    && returns (cast_value "reporter" (cast_oid_path "reporter" (fun b => Some (reporter b)))
                           (Some <$> rf_reporter filter))
    && returns (cast_search (rf_or filter)).
Proof.
  unfold castFilterRaw.
  destruct (cast_value "status" _ _); [|done].
  destruct (cast_value "priority" _ _); [|done].
  destruct (cast_value "type" _ _); [|done].
  destruct (cast_value "assignedTo" _ _); [|done].
  destruct (cast_value "reporter" _ _); [|done].
  by destruct (cast_search _).
Qed.

Lemma exportBugsRaw_succeeds q db :
  succeeds (exportBugsRaw q db) = returns (castFilterRaw (exportFilterRaw q)).
Proof. unfold exportBugsRaw, exportRowsRaw. by destruct (castFilterRaw _). Qed.

Lemma exportBugsRaw_outcome q db :
  if returns (castFilterRaw (exportFilterRaw q))
  then exists csv, exportBugsRaw q db = Success csv
  else exportBugsRaw q db = Failed "Failed to export bugs".
Proof. unfold exportBugsRaw, exportRowsRaw. destruct (castFilterRaw _); simpl; eauto. Qed.

(** A string under a path of schema type String is never refused. *)
Lemma cast_value_string_returns path get v :
  returns (cast_value path (cast_string_path path get) (Some <$> truthy_q (Some (QStr v))))
  = true.
Proof. simpl. by destruct (Js.truthy v). Qed.

(** On a query whose parameters are all strings the two models of the
    export are one. *)
Lemma cast_value_string path cast (v : option string) :
  cast_value path cast (Some <$> truthy_q (QStr <$> v)) = cast (truthy_val v).
Proof. destruct v as [s|]; [|done]. simpl. by destruct (Js.truthy s). Qed.

Lemma castFilterRaw_strings (q : gmap string string) :
  castFilterRaw (exportFilterRaw (QStr <$> q)) = castFilter (exportFilter q).
Proof.
  change (exportFilter q) with (listFilter q).
  unfold castFilterRaw, castFilter, exportFilterRaw. cbn [rf_status rf_priority rf_type
    rf_assignedTo rf_reporter rf_or].
  rewrite !listFilter_lookup, !lookup_fmap.
  rewrite !cast_value_string.
  change (filter_entry q "status") with (truthy_val (q !! "status")).
  change (filter_entry q "priority") with (truthy_val (q !! "priority")).
  change (filter_entry q "type") with (truthy_val (q !! "type")).
  change (filter_entry q "reporter") with (truthy_val (q !! "reporter")).
  assert (cast_value "assignedTo" (cast_oid_path "assignedTo" assignedTo)
            (if is_true_string (QStr <$> q !! "unassigned") then Some None
             else Some <$> truthy_q (QStr <$> q !! "assignedTo"))
          = cast_oid_path "assignedTo" assignedTo (filter_entry q "assignedTo")) as ->.
  { unfold filter_entry. simpl.
    destruct (q !! "unassigned") as [u|] eqn:Hu; simpl.
    - destruct (String.eqb_spec u "true") as [->|Hne].
      + by rewrite bool_decide_eq_true_2.
      + rewrite bool_decide_eq_false_2 by congruence. apply cast_value_string.
    - rewrite ?bool_decide_eq_false_2 by done. apply cast_value_string. }
  assert (cast_search (truthy_q (QStr <$> q !! "search")) = cast_or (filter_entry q "$or")) as ->.
  { unfold filter_entry. simpl. destruct (q !! "search") as [s|]; [|done]. simpl.
    by destruct (Js.truthy s). }
  reflexivity.
Qed.

Lemma exportBugsRaw_strings (q : gmap string string) db :
  exportBugsRaw (QStr <$> q) db = exportBugs q db
  /\ exportRowsRaw (QStr <$> q) db = exportRows q db.
Proof.
  unfold exportBugsRaw, exportBugs, exportRowsRaw, exportRows, find.
  rewrite castFilterRaw_strings. by destruct (castFilter (exportFilter q)).
Qed.

End RawFacts.

Section NoValidation.
Context `{StoreEngine} `{RawEngine}.

(** An identifier that the chain accepts and the store cannot cast makes
    the listing fail. *)
Lemma listing_fails_on_cast q db :
  Validator.validationResult q = [] ->
  returns (castFilter (listFilter q)) = false ->
  listing q db = Failed "Failed to fetch bugs".
Proof.
  intros Hvalid Hcast. unfold listing, find. rewrite Hvalid.
  by destruct (castFilter (listFilter q)).
Qed.


End NoValidation.


(** An identifier with the prefix [0x] and 22 hexadecimal digits passes
    the listing's chain; a store that casts only 24 hexadecimal digits
    refuses it, and the listing answers with the server error as the
    export does. *)
Lemma prefixed_identifier_passes_the_chain :
  Validator.isMongoId Sample.prefixed_id = true
  /\ @listing fragment_engine (<["assignedTo" := Sample.prefixed_id]> ∅) Sample.db
     = Failed "Failed to fetch bugs"
  /\ @exportBugs fragment_engine (<["assignedTo" := Sample.prefixed_id]> ∅) Sample.db
     = Failed "Failed to export bugs".
Proof. repeat split; reflexivity. Qed.

(** ** CSV escaping *)

Lemma includes_app c s t : Js.includes c (s +:+ t) = Js.includes c s || Js.includes c t.
Proof.
  induction s as [|a s IH]; simpl; [done|].
  destruct (Ascii.eqb a c); [done | exact IH].
Qed.

Lemma plain_escapeCSV field : plain field = true -> escapeCSV field = field.
Proof.
  unfold plain, escapeCSV. intros Hp.
  destruct (Js.includes Js.comma field), (Js.includes Js.dquote field),
    (Js.includes Js.newline field); done.
Qed.

Lemma plain_app s t : plain s = true -> plain t = true -> plain (s +:+ t) = true.
Proof.
  unfold plain. rewrite !includes_app. intros Hs Ht.
  destruct (Js.includes Js.comma s), (Js.includes Js.dquote s), (Js.includes Js.newline s);
    done.
Qed.

Lemma plain_oid o : plain (oid_to_string o) = true.
Proof.
  induction o as [|h o IH]; [done|].
  change (oid_to_string (h :: o)) with (String (hex_char h) "" +:+ oid_to_string o).
  apply plain_app; [by destruct h | exact IH].
Qed.

Lemma plain_digit n : plain (String (Js.digit_char n) "") = true.
Proof.
  unfold Js.digit_char.
  pose proof (Z.mod_pos_bound n 10 ltac:(lia)) as Hb.
  assert (n mod 10 = 0 \/ n mod 10 = 1 \/ n mod 10 = 2 \/ n mod 10 = 3 \/ n mod 10 = 4
          \/ n mod 10 = 5 \/ n mod 10 = 6 \/ n mod 10 = 7 \/ n mod 10 = 8 \/ n mod 10 = 9)
    as Hcases by lia.
  repeat (destruct Hcases as [->|Hcases]; [reflexivity|]). by rewrite Hcases.
Qed.

Lemma plain_fixed_digits w n : plain (Js.fixed_digits w n) = true.
Proof.
  revert n. induction w as [|w IH]; intros n; simpl; [done|].
  apply plain_app; [apply IH | apply plain_digit].
Qed.

Lemma plain_iso_year y : plain (JsDate.iso_year y) = true.
Proof.
  unfold JsDate.iso_year.
  destruct ((0 <=? y) && (y <=? 9999)); [apply plain_fixed_digits|].
  destruct (y <? 0); (apply plain_app; [done | apply plain_fixed_digits]).
Qed.

Lemma plain_toISOString t : plain (JsDate.toISOString t) = true.
Proof.
  unfold JsDate.toISOString.
  destruct (JsDate.civil_from_days (JsDate.Day t)) as [[y m] d].
  repeat (apply plain_app;
          [first [apply plain_iso_year | apply plain_fixed_digits | reflexivity]|]).
  reflexivity.
Qed.

(** Each of the ten columns of a row is written as [escapeCSV] writes it:
    the six that the handler writes as they are hold none of the three
    characters. *)
Lemma csvRow_escapes_every_column db bug :
  csvRow db bug = Js.join "," (map escapeCSV (columns db bug)).
Proof.
  unfold csvRow, columns. cbn [map].
  rewrite (plain_escapeCSV _ (plain_oid (bug_id bug))).
  rewrite !(plain_escapeCSV _ (plain_toISOString _)).
  rewrite (plain_escapeCSV (status_name (status bug))) by (by destruct (status bug)).
  rewrite (plain_escapeCSV (priority_name (priority bug))) by (by destruct (priority bug)).
  rewrite (plain_escapeCSV (type_name (type bug))) by (by destruct (type bug)).
  reflexivity.
Qed.

Section Escaping.
Context `{StoreEngine}.

(** C8.  The body that the export writes is the header line followed by
    one line for each bug that the query selects, most recently created
    first; a line is the ten column values of the bug, separated by commas,
    each written as [escapeCSV] writes it: a value holding a comma, a
    double quote or a newline is wrapped in double quotes with each double
    quote inside doubled, any other value is written unchanged.  The
    export of a store whose one bug has the description He said, followed
    by fix it between double quotes, writes that description between
    double quotes with the two inner double quotes doubled. *)
Theorem export_fields_are_escaped (q : gmap string string) (db : Store) :
  let line bug := Js.join "," (map escapeCSV (columns db bug)) in
  match exportRows q db with
  | Ok rows => exportBugs q db = Success (csvHeader +:+ Js.join nl (map line rows))
  | Throw _ => exportBugs q db = Failed "Failed to export bugs"
  end
  /\ exportBugs ∅ db
     = Success (csvHeader +:+ Js.join nl (map line (sortCreatedDesc (bugs db))))
  /\ (forall field,
       (plain field = false ->
        escapeCSV field = quoted (Js.replaceAll Js.dquote (quoted "") field))
       /\ (plain field = true -> escapeCSV field = field))
  /\ exportBugs ∅ Sample.db_quote
     = Success (csvHeader
                +:+ "777777777777777777777777,quote,"
                +:+ quoted ("He said, " +:+ quoted (quoted "fix it"))
                +:+ ",open,low,bug,Unassigned,Ann Lee,"
                +:+ "1970-01-01T00:00:01.000Z,1970-01-01T00:00:01.000Z").
Proof.
  intros line.
  assert (forall rows, map (csvRow db) rows = map line rows) as Hlines
    by (intros rows; apply map_ext; intros bug; apply csvRow_escapes_every_column).
  split; [|split; [|split]].
  - unfold exportBugs. destruct (exportRows q db) as [rows|]; [|done]. by rewrite Hlines.
  - unfold exportBugs, exportRows. rewrite find_empty, filter_true. simpl. by rewrite Hlines.
  - intros field. split; [|apply plain_escapeCSV].
    unfold plain, escapeCSV, quoted. intros Hp.
    destruct (Js.includes Js.comma field), (Js.includes Js.dquote field),
      (Js.includes Js.newline field); done.
  - reflexivity.
Qed.

End Escaping.

(** ** The analytics report *)

Lemma total_bump {K} `{EqDecision K} (k : K) groups : total (bump k groups) = total groups + 1.
Proof.
  induction groups as [|[k' n] r IH]; simpl; [done|].
  destruct (decide (k' = k)); simpl; lia.
Qed.

Lemma total_fold_bump {K} `{EqDecision K} (key : Bug -> K) l groups :
  total (fold_left (fun gs b => bump (key b) gs) l groups)
  = total groups + Z.of_nat (length l).
Proof.
  revert groups. induction l as [|b r IH]; intros groups; simpl; [lia|].
  rewrite IH, total_bump. lia.
Qed.

Lemma total_groupCount {K} `{EqDecision K} (key : Bug -> K) l :
  total (groupCount key l) = Z.of_nat (length l).
Proof. unfold groupCount. by rewrite total_fold_bump. Qed.

Lemma sum_counts_named {K} (name : K -> string) (groups : list (K * Z)) :
  sum_counts (map (fun item => (name item.1, item.2)) groups) = total groups.
Proof. induction groups as [|[k n] r IH]; simpl; [done|]. by rewrite IH. Qed.

(** Every bug falls in exactly one group: the count found under a key is
    the number of bugs with that key. *)
Lemma group_lookup_bump {K} `{EqDecision K} (k k0 : K) groups :
  group_lookup k0 (bump k groups)
  = group_lookup k0 groups + (if decide (k = k0) then 1 else 0).
Proof.
  induction groups as [|[k' n] r IH]; simpl.
  - destruct (decide (k = k0)); lia.
  - destruct (decide (k' = k)) as [->|Hne]; simpl.
    + destruct (decide (k = k0)); lia.
    + destruct (decide (k' = k0)) as [->|]; [|exact IH].
      rewrite decide_False by congruence. lia.
Qed.

Lemma group_lookup_fold {K} `{EqDecision K} (key : Bug -> K) (k0 : K) l groups :
  group_lookup k0 (fold_left (fun gs b => bump (key b) gs) l groups)
  = group_lookup k0 groups
    + Z.of_nat (length (List.filter (fun b => bool_decide (key b = k0)) l)).
Proof.
  revert groups. induction l as [|b r IH]; intros groups; simpl; [lia|].
  rewrite IH, group_lookup_bump.
  destruct (decide (key b = k0)) as [Heq|Hne].
  - rewrite bool_decide_eq_true_2 by done. simpl length. lia.
  - rewrite bool_decide_eq_false_2 by done. lia.
Qed.

Lemma group_lookup_groupCount {K} `{EqDecision K} (key : Bug -> K) (k0 : K) l :
  group_lookup k0 (groupCount key l)
  = Z.of_nat (length (List.filter (fun b => bool_decide (key b = k0)) l)).
Proof. unfold groupCount. by rewrite group_lookup_fold. Qed.

(** C7.  The unfiltered report always comes; the counts of its status
    distribution add up to its total, which is the number of bugs in the
    store, and so do the counts of its priority distribution. *)
Theorem distributions_sum_to_total (tz : JsDate.TimeZone) (clock : Clock) (db : Store) :
  exists r,
    analytics tz clock db = Success r
    /\ totalBugs r = Z.of_nat (length (bugs db))
    /\ sum_counts (statusDistribution r) = totalBugs r
    /\ sum_counts (priorityDistribution r) = totalBugs r.
Proof.
  eexists. split; [reflexivity|]. simpl. unfold countWhere.
  rewrite filter_true, !sum_counts_named, !total_groupCount. done.
Qed.

(** ** The two windows of the analytics

    The calendar: a day number and its civil date determine each other. *)

Lemma year_of_era doe :
  0 <= doe < 146097 ->
  let yoe := (doe - doe / 1460 + doe / 36524 - doe / 146096) / 365 in
  let doy := doe - (365 * yoe + yoe / 4 - yoe / 100) in
  0 <= yoe <= 399 /\ 0 <= doy <= 365.
Proof. intros Hd; cbv zeta. Z.div_mod_to_equations; lia. Qed.

Lemma civil_roundtrip z y m d :
  JsDate.civil_from_days z = (y, m, d) ->
  JsDate.days_from_civil y m d = z /\ 1 <= m <= 12.
Proof.
  unfold JsDate.civil_from_days. cbv zeta.
  set (era := (z + 719468) / 146097).
  set (doe := z + 719468 - era * 146097).
  assert (0 <= doe < 146097) as Hdoe by (subst doe era; Z.div_mod_to_equations; lia).
  pose proof (year_of_era doe Hdoe) as Hy. cbv zeta in Hy.
  set (yoe := (doe - doe / 1460 + doe / 36524 - doe / 146096) / 365) in *.
  set (doy := doe - (365 * yoe + yoe / 4 - yoe / 100)) in *.
  set (mp := (5 * doy + 2) / 153).
  assert (0 <= mp <= 11) as Hmp by (subst mp; Z.div_mod_to_equations; lia).
  intros [= <- <- <-].
  assert (z = era * 146097 + doe - 719468) as Hz by (subst doe; lia).
  assert (doe = doy + (365 * yoe + yoe / 4 - yoe / 100)) as Hdoy by (subst doy; lia).
  clearbody mp doy yoe doe era.
  unfold JsDate.days_from_civil.
  destruct (mp <? 10) eqn:Hlt; [apply Z.ltb_lt in Hlt | apply Z.ltb_ge in Hlt]; cbv iota.
  - replace (mp + 3 <=? 2) with false by (symmetry; apply Z.leb_gt; lia).
    replace (2 <? mp + 3) with true by (symmetry; apply Z.ltb_lt; lia).
    cbv iota. replace (mp + 3 - 3) with mp by lia.
    replace ((yoe + era * 400) / 400) with era by (Z.div_mod_to_equations; lia).
    replace (yoe + era * 400 - era * 400) with yoe by lia.
    split; lia.
  - replace (mp - 9 <=? 2) with true by (symmetry; apply Z.leb_le; lia).
    replace (2 <? mp - 9) with false by (symmetry; apply Z.ltb_ge; lia).
    cbv iota. replace (mp - 9 + 9) with mp by lia.
    replace (yoe + era * 400 + 1 - 1) with (yoe + era * 400) by lia.
    replace ((yoe + era * 400) / 400) with era by (Z.div_mod_to_equations; lia).
    replace (yoe + era * 400 - era * 400) with yoe by lia.
    split; lia.
Qed.

(** Seven days back in the calendar of a time value is seven times 24
    hours back. *)
Lemma seven_days_back_in_the_calendar t :
  JsDate.MakeDate
    (JsDate.MakeDay (JsDate.YearFromTime t) (JsDate.MonthFromTime t) (JsDate.DateFromTime t - 7))
    (JsDate.TimeWithinDay t)
  = t - 7 * JsDate.msPerDay.
Proof.
  unfold JsDate.DateFromTime, JsDate.YearFromTime, JsDate.MonthFromTime.
  destruct (JsDate.civil_from_days (JsDate.Day t)) as [[y m] d] eqn:Hc.
  apply civil_roundtrip in Hc as [Hday Hm]. simpl.
  unfold JsDate.MakeDay, JsDate.MakeDate.
  replace ((m - 1) / 12) with 0 by (Z.div_mod_to_equations; lia).
  replace ((m - 1) mod 12 + 1) with m by (Z.div_mod_to_equations; lia).
  replace (y + 0) with y by lia.
  assert (JsDate.days_from_civil y m 1 + (d - 7) - 1 = JsDate.days_from_civil y m d - 7) as ->.
  { unfold JsDate.days_from_civil. lia. }
  rewrite Hday. unfold JsDate.Day, JsDate.TimeWithinDay, JsDate.msPerDay.
  Z.div_mod_to_equations; lia.
Qed.

(** The threshold of the recent window is seven local calendar days
    before "now": seven times 24 hours before it when the offset of the
    zone is the same at both instants. *)
Lemma sevenDaysBefore_spec tz now :
  JsDate.LocalTZA tz (JsDate.LocalTime tz now - 7 * JsDate.msPerDay) false
  = JsDate.LocalTZA tz now true ->
  sevenDaysBefore tz now = now - 7 * JsDate.msPerDay.
Proof.
  intros Hoffset. unfold sevenDaysBefore, JsDate.setDate, JsDate.getDate. cbv zeta.
  rewrite seven_days_back_in_the_calendar. unfold JsDate.UTC. rewrite Hoffset.
  unfold JsDate.LocalTime. lia.
Qed.

Lemma sevenDaysBefore_utc now : sevenDaysBefore JsDate.utc now = now - 7 * JsDate.msPerDay.
Proof. by apply sevenDaysBefore_spec. Qed.

(** Across a change of the zone's offset the threshold is not seven times
    24 hours back: on 2024-10-31T00:00Z, in the sample zone, it lies an
    hour earlier. *)
Lemma a_week_across_a_change_of_hour :
  sevenDaysBefore Sample.zone 1730332800000 = 1730332800000 - 7 * JsDate.msPerDay - 3600000.
Proof. vm_compute. reflexivity. Qed.

(** The report over the sample store, with the sample clock. *)
Lemma sample_report :
  analytics JsDate.utc Sample.clock Sample.db_windows
  = Success {| totalBugs := 3; openBugs := 3; inProgressBugs := 0; resolvedBugs := 0;
               closedBugs := 0; highPriorityBugs := 0; criticalBugs := 0;
               recentBugs := 1;
               statusDistribution := [("open", 3)];
               priorityDistribution := [("low", 3)];
               assigneeDistribution := [];
               trend := [("2024-08", 2)] |}.
Proof. vm_compute. reflexivity. Qed.

Lemma sample_trend_one_now :
  monthlyTrend (sixMonthsBefore JsDate.utc Sample.t1) Sample.db_windows
  = [("2024-03", 1); ("2024-08", 2)].
Proof. vm_compute. reflexivity. Qed.

Lemma recentBugs_oneNow tz now db :
  recentBugs (analyticsOneNow tz now db)
  = countWhere (fun b => sevenDaysBefore tz now <=? createdAt b) db.
Proof. reflexivity. Qed.

Lemma trend_oneNow tz now db :
  trend (analyticsOneNow tz now db) = monthlyTrend (sixMonthsBefore tz now) db.
Proof. reflexivity. Qed.



(** ** The resolved timestamp *)

(** The save hook does what its comment says: once the status is modified,
    a closed bug has a resolved timestamp and any other bug has none. *)
Lemma pre_save_sets_and_clears now doc :
  let saved := pre_save true now doc in
  status saved = status doc
  /\ (status doc = Closed -> is_Some (resolvedAt saved))
  /\ (status doc <> Closed -> resolvedAt saved = None).
Proof.
  unfold pre_save. destruct (decide (status doc = Closed)) as [Hc|Hc].
  - rewrite (bool_decide_eq_true_2 _ Hc). simpl.
    destruct (resolvedAt doc) as [t|] eqn:Hr.
    + rewrite bool_decide_eq_true_2 by eauto. simpl. rewrite Hr.
      split; [done|]. split; [eauto | done].
    + rewrite bool_decide_eq_false_2 by (by intros [? ?]). simpl.
      split; [done|]. split; [eauto | done].
  - rewrite (bool_decide_eq_false_2 _ Hc). simpl. tauto.
Qed.

(** A created bug is open and has no resolved timestamp, whatever Mongoose
    answers to [isModified('status')] for the defaulted path. *)
Lemma created_bug_is_unresolved `{StoreEngine} save body reporter_id db bug db' :
  createBug save body reporter_id db = Success (bug, db') ->
  status bug = Open /\ resolvedAt bug = None /\ resolved_only_when_closed bug.
Proof.
  assert (forall assignee,
            saveNew save body assignee reporter_id db = Success (bug, db') ->
            status bug = Open /\ resolvedAt bug = None /\ resolved_only_when_closed bug)
    as Hsave.
  { intros assignee. unfold saveNew. destruct (_ && _); [|done].
    intros [= <- <-]. unfold pre_save, resolved_only_when_closed.
    destruct (status_modified save); simpl; repeat split; try done; by intros [? ?]. }
  unfold createBug. destruct (c_assignedTo body) as [a|]; [|apply Hsave].
  destruct (Js.truthy a); [|apply Hsave].
  destruct (cast_oid a) as [o|]; [|done].
  destruct (user_exists db o); [apply Hsave | done].
Qed.

(** C9 at the update [{ status: 'closed' }] of an open bug: the document is
    written in the store by [findByIdAndUpdate], the save hook does not run,
    and the bug is closed with no resolved timestamp.  At the update
    [{ status: 'reopened' }] of a closed bug the resolved timestamp stays,
    on a bug that is no longer closed. *)
Lemma update_bypasses_the_save_hook :
  (exists bug db',
      updateBug (Sample.oid x1) 5000 Sample.close_body Sample.db = Updated bug db'
      /\ findById (Sample.oid x1) db' = Some bug
      /\ status bug = Closed /\ resolvedAt bug = None)
  /\ (exists bug db',
      updateBug (Sample.oid x6) 5000 Sample.reopen_body Sample.db_closed = Updated bug db'
      /\ status bug = Reopened /\ resolvedAt bug = Some 3000
      /\ ~ resolved_only_when_closed bug).
Proof.
  split; eexists; eexists.
  - repeat split; reflexivity.
  - split; [reflexivity|]. split; [reflexivity|]. split; [reflexivity|].
    intros Hinv. assert (Reopened = Closed) by (apply Hinv; simpl; eauto). discriminate.
Qed.

(** * Further properties of the handlers and of the client *)

(** ** More on the listing *)

Lemma insert_desc_sorted b l :
  StronglySorted newer_first l -> StronglySorted newer_first (insert_desc b l).
Proof.
  induction 1 as [|x r Hsorted IH Hall]; simpl.
  - repeat constructor.
  - destruct (Z.leb_spec (createdAt x) (createdAt b)) as [Hle|Hgt].
    + constructor; [by constructor|].
      constructor; [exact Hle|].
      eapply Forall_impl; [exact Hall|]. unfold newer_first. intros y Hy. simpl in *. lia.
    + constructor; [exact IH|].
      rewrite insert_desc_perm. constructor; [|exact Hall].
      unfold newer_first. lia.
Qed.

Lemma sortCreatedDesc_sorted l : StronglySorted newer_first (sortCreatedDesc l).
Proof.
  induction l as [|b r IH]; simpl; [constructor|]. by apply insert_desc_sorted.
Qed.

Lemma StronglySorted_sublist {A} (R : A -> A -> Prop) l1 l2 :
  l1 `sublist_of` l2 -> StronglySorted R l2 -> StronglySorted R l1.
Proof.
  induction 1 as [|x l1 l2 Hsub IH|x l1 l2 Hsub IH]; intros Hs; [constructor|..].
  - apply StronglySorted_inv in Hs as [Hs Hall]. constructor; [by apply IH|].
    eapply Forall_forall. intros y Hy. eapply Forall_forall in Hall; [exact Hall|].
    by eapply elem_of_sublist.
  - apply StronglySorted_inv in Hs as [Hs _]. by apply IH.
Qed.

Lemma length_window skip limit l :
  0 <= skip -> 0 <= limit ->
  Z.of_nat (length (window skip limit l))
  = Z.min limit (Z.max 0 (Z.of_nat (length l) - skip)).
Proof.
  intros Hs Hl. unfold window. rewrite length_take, length_drop. lia.
Qed.

(** The pages of a list. *)
Lemma pages_cover (s n : nat) (l : list Bug) :
  (0 < s)%nat -> (length l <= n * s)%nat ->
  concat (map (fun k => take s (drop (k * s) l)) (seq 0 n)) = l.
Proof.
  intros Hs. revert l. induction n as [|n IH]; intros l Hlen.
  - simpl in *. destruct l; [done | simpl in Hlen; lia].
  - transitivity ((take s l ++ drop s l)%list); [|apply take_drop].
    change (seq 0 (S n)) with (0%nat :: seq 1 n). rewrite <- fmap_S_seq.
    cbn [map concat]. change (0 * s)%nat with 0%nat. rewrite drop_0. f_equal.
    etrans; [|apply (IH (drop s l)); rewrite length_drop; lia].
    f_equal. change (S <$> seq 0 n) with (map S (seq 0 n)). rewrite List.map_map.
    apply map_ext. intros k. rewrite drop_drop. do 2 f_equal; lia.
Qed.

(** ** Numbers on the wire *)

Lemma digits_prefix_cons acc c r :
  Js.is_digit c = true ->
  Js.digits_prefix acc (String c r) = Js.digits_prefix (10 * acc + Js.digit_val c) r.
Proof. intros Hc. simpl. by rewrite Hc. Qed.

Ltac digit_step :=
  cbn [NilEmpty.string_of_uint]; rewrite digits_prefix_cons by reflexivity;
  match goal with
  | |- context [Js.digit_val ?c] =>
      let v := eval vm_compute in (Js.digit_val c) in change (Js.digit_val c) with v
  end.

Lemma digits_prefix_uint (d : Decimal.uint) (acc : positive) :
  Js.digits_prefix (Z.pos acc) (NilEmpty.string_of_uint d) = Z.pos (Pos.of_uint_acc d acc).
Proof.
  revert acc. induction d; intros acc; [done|..];
    digit_step; cbn [Pos.of_uint_acc]; rewrite <- IHd; f_equal; lia.
Qed.

Lemma digits_prefix_uint_0 (d : Decimal.uint) :
  Js.digits_prefix 0 (NilEmpty.string_of_uint d) = Z.of_N (Pos.of_uint d).
Proof.
  induction d; [done|..]; digit_step; cbn [Pos.of_uint]; [exact IHd|..];
    cbn [Z.of_N]; by rewrite <- digits_prefix_uint.
Qed.

Lemma all_digits_uint (d : Decimal.uint) : Js.all_digits (NilEmpty.string_of_uint d) = true.
Proof. induction d; simpl; done. Qed.

Lemma starts_with_digit_uint (d : Decimal.uint) :
  d <> Decimal.Nil -> Js.starts_with_digit (NilEmpty.string_of_uint d) = true.
Proof. destruct d; done. Qed.

Lemma parseInt_unsigned (d : Decimal.uint) :
  d <> Decimal.Nil ->
  Js.parseInt (NilEmpty.string_of_uint d) = Some (Z.of_N (Pos.of_uint d))
  /\ Validator.int_syntax (NilEmpty.string_of_uint d) = true.
Proof.
  intros Hd. rewrite <- digits_prefix_uint_0.
  pose proof (all_digits_uint d) as Hall.
  destruct d; [done|..]; split; try reflexivity;
    cbn [NilEmpty.string_of_uint Validator.int_syntax Js.starts_with_digit] in *;
    exact Hall.
Qed.

(** [parseInt(String(n))] is [n], and [String(n)] has the syntax of an
    integer for [isInt]. *)
Lemma parseInt_number_to_string (n : Z) :
  Js.parseInt (Js.number_to_string n) = Some n
  /\ Validator.int_syntax (Js.number_to_string n) = true.
Proof.
  unfold Js.number_to_string. destruct n as [|p|p]; [done|..]; simpl Z.to_int;
    cbn [NilZero.string_of_int];
    pose proof (Unsigned.to_uint_nonnil p) as Hnil;
    pose proof (parseInt_unsigned (Pos.to_uint p) Hnil) as [Hparse Hsyntax];
    rewrite DecimalPos.Unsigned.of_to in Hparse;
    (replace (NilZero.string_of_uint (Pos.to_uint p))
       with (NilEmpty.string_of_uint (Pos.to_uint p))
       by (by destruct (Pos.to_uint p))).
  - done.
  - pose proof (all_digits_uint (Pos.to_uint p)) as Hall.
    pose proof (starts_with_digit_uint (Pos.to_uint p) Hnil) as Hstart.
    pose proof (digits_prefix_uint_0 (Pos.to_uint p)) as Hval.
    rewrite DecimalPos.Unsigned.of_to in Hval.
    cbn [Js.parseInt Validator.int_syntax]. by rewrite Hstart, Hall, Hval.
Qed.

(** The page parameter is no part of the filter. *)
Lemma listFilter_insert_page q v : listFilter (<["page" := v]> q) = listFilter q.
Proof.
  apply map_eq; intros i. rewrite !listFilter_lookup. unfold filter_entry.
  rewrite !(lookup_insert_ne q "page" "search") by done.
  rewrite !(lookup_insert_ne q "page" "unassigned") by done.
  rewrite !(lookup_insert_ne q "page" "assignedTo") by done.
  destruct (decide (i = "$or")); [done|].
  destruct (decide (i = "assignedTo")); [done|].
  destruct (decide (i ∈ _)) as [Hin|]; [|done].
  rewrite lookup_insert_ne; [done|].
  intros <-. apply list_elem_of_In in Hin; simpl in Hin.
  destruct Hin as [?|[?|[?|[?|[]]]]]; discriminate.
Qed.

(** Asking for page [k >= 1] of a query that is valid without a page. *)
Lemma validationResult_with_page q k :
  1 <= k -> Validator.validationResult q = [] ->
  Validator.validationResult (<["page" := Js.number_to_string k]> q) = []
  /\ Js.parseIntOr (<["page" := Js.number_to_string k]> q !! "page") 1 = k.
Proof.
  intros Hk Hvalid. destruct (parseInt_number_to_string k) as [Hparse Hsyntax]. split.
  - apply validationResult_nil. intros c Hc.
    pose proof (validation_passes q c Hvalid Hc) as Hq. simpl in Hc.
    destruct Hc as [<-|[<-|[<-|[<-|[<-|[<-|[<-|[<-|[]]]]]]]]]; unfold Validator.fails in *;
      simpl in *; rewrite ?lookup_insert_eq; rewrite ?lookup_insert_ne by done; try done.
    unfold Validator.isInt. rewrite Hsyntax, Hparse. simpl.
    apply negb_false_iff, andb_true_iff. split; [by apply Z.leb_le | done].
  - rewrite lookup_insert_eq. unfold Js.parseIntOr. simpl. rewrite Hparse.
    destruct k; [lia | done | lia].
Qed.

Section ListingFacts.
Context `{StoreEngine}.

(** What a successful listing is made of. *)
Lemma listing_success q db r :
  listing q db = Success r ->
  let page := Js.parseIntOr (q !! "page") 1 in
  let limit := Js.parseIntOr (q !! "limit") 10 in
  Validator.validationResult q = []
  /\ 1 <= page /\ 1 <= limit <= 100
  /\ exists p, castFilter (listFilter q) = Ok p
       /\ listed r = window ((page - 1) * limit) limit (sortCreatedDesc (List.filter p (bugs db)))
       /\ pagination r = paginate (Z.of_nat (length (List.filter p (bugs db)))) page limit.
Proof.
  intros Hlist page limit.
  assert (Validator.validationResult q = []) as Hvalid.
  { unfold listing in Hlist. by destruct (Validator.validationResult q). }
  destruct (listing_envelope q db Hvalid) as (Hpage & Hlimit & _).
  split; [done|]. split; [done|]. split; [done|].
  unfold listing in Hlist. rewrite Hvalid in Hlist.
  unfold find, countDocuments in Hlist.
  destruct (castFilter (listFilter q)) as [p|]; simpl in Hlist; [|done].
  injection Hlist as <-. by exists p.
Qed.

(** X1.  The page of a listing holds bugs of the store that satisfy the
    predicate of the query, most recently created first, and never more
    of them than the page size, which is at most 100. *)
Theorem listing_page_is_sorted_and_matches (q : gmap string string) (db : Store) (r : Listing) :
  listing q db = Success r ->
  StronglySorted newer_first (listed r)
  /\ (exists p, castFilter (listFilter q) = Ok p
               /\ forall b, b ∈ listed r -> b ∈ bugs db /\ p b = true)
  /\ Z.of_nat (length (listed r)) <= Js.parseIntOr (q !! "limit") 10 <= 100.
Proof.
  intros Hlist. destruct (listing_success q db r Hlist)
    as (_ & Hpage & Hlimit & p & Hcast & Hlisted & _).
  assert (listed r `sublist_of` sortCreatedDesc (List.filter p (bugs db))) as Hsub
    by (rewrite Hlisted; apply window_sublist).
  split; [|split].
  - eapply StronglySorted_sublist; [exact Hsub | apply sortCreatedDesc_sorted].
  - exists p. split; [done|]. intros b Hb.
    eapply elem_of_sublist in Hb; [|exact Hsub].
    rewrite sortCreatedDesc_perm in Hb. apply list_elem_of_In, List.filter_In in Hb.
    by rewrite list_elem_of_In.
  - assert (0 <= (Js.parseIntOr (q !! "page") 1 - 1) * Js.parseIntOr (q !! "limit") 10)
      as Hskip by nia.
    rewrite Hlisted, length_window by lia. lia.
Qed.

(** X2.  The size of a page: the page size while a next page is
    announced, what is left on the last page, nothing past the last
    page (the request is answered, with an empty page). *)
Theorem listing_page_size (q : gmap string string) (db : Store) (r : Listing) :
  listing q db = Success r ->
  let page := currentPage (pagination r) in
  let limit := Js.parseIntOr (q !! "limit") 10 in
  let N := totalCount (pagination r) in
  Z.of_nat (length (listed r)) = Z.min limit (Z.max 0 (N - (page - 1) * limit))
  /\ (hasNext (pagination r) = true -> Z.of_nat (length (listed r)) = limit)
  /\ (totalPages (pagination r) < page -> listed r = [])
  /\ (page <= totalPages (pagination r) -> listed r <> []).
Proof.
  intros Hlist. destruct (listing_success q db r Hlist)
    as (_ & Hpage & Hlimit & p & Hcast & Hlisted & Hpag).
  rewrite Hpag. cbn [currentPage totalCount hasNext totalPages paginate].
  set (page := Js.parseIntOr (q !! "page") 1) in *.
  set (limit := Js.parseIntOr (q !! "limit") 10) in *.
  set (N := Z.of_nat (length (List.filter p (bugs db)))) in *.
  assert (0 <= (page - 1) * limit) as Hskip by nia.
  assert (Z.of_nat (length (listed r)) = Z.min limit (Z.max 0 (N - (page - 1) * limit)))
    as Hlen.
  { rewrite Hlisted, length_window by lia. by rewrite length_sortCreatedDesc. }
  pose proof (Math_ceil_div_spec N limit ltac:(lia)) as Hceil.
  split; [exact Hlen|]. split; [|split].
  - intros Hnext. apply Z.ltb_lt in Hnext. rewrite Hlen. nia.
  - intros Hpast. apply length_zero_iff_nil. nia.
  - intros Hin Hnil. rewrite Hnil in Hlen. simpl in Hlen. nia.
Qed.

(** X3.  For a query that is valid and names no page, the pages 1 to
    [totalPages], asked one after the other over one store state, are
    answered, and put end to end they are the matching bugs in order:
    no bug is skipped and none is shown twice. *)
Theorem pages_partition_the_matches (q : gmap string string) (db : Store) (p : Bug -> bool) :
  Validator.validationResult q = [] ->
  castFilter (listFilter q) = Ok p ->
  let limit := Js.parseIntOr (q !! "limit") 10 in
  let matches := sortCreatedDesc (List.filter p (bugs db)) in
  let pages := Z.to_nat (totalPages (paginate (Z.of_nat (length matches)) 1 limit)) in
  concat (map (fun k => listed_of (listing (<["page" := Js.number_to_string (Z.of_nat k)]> q) db))
              (seq 1 pages))
  = matches.
Proof.
  intros Hvalid Hcast limit matches pages.
  destruct (listing_envelope q db Hvalid) as (_ & Hlimit & _). fold limit in Hlimit.
  assert (forall k, (1 <= k)%nat ->
            listed_of (listing (<["page" := Js.number_to_string (Z.of_nat k)]> q) db)
            = take (Z.to_nat limit) (drop ((k - 1) * Z.to_nat limit) matches)) as Hpage.
  { intros k Hk.
    destruct (validationResult_with_page q (Z.of_nat k) ltac:(lia) Hvalid) as [Hv Hp].
    unfold listing. rewrite Hv, Hp, listFilter_insert_page.
    rewrite lookup_insert_ne by done. fold limit.
    unfold find, countDocuments. rewrite Hcast. simpl. unfold window.
    do 2 f_equal. nia. }
  transitivity (concat (map (fun k => take (Z.to_nat limit)
                                        (drop (k * Z.to_nat limit) matches)) (seq 0 pages))).
  - f_equal. rewrite <- fmap_S_seq. change (S <$> seq 0 pages) with (map S (seq 0 pages)).
    rewrite List.map_map. apply map_ext_in. intros k _.
    rewrite Hpage by lia. do 3 f_equal. lia.
  - apply pages_cover; [lia|]. subst pages. cbn [totalPages paginate].
    pose proof (Math_ceil_div_spec (Z.of_nat (length matches)) limit ltac:(lia)) as Hceil.
    nia.
Qed.

(** X4.  The page of a listing is the window of the rows that the export
    reads for the same query, in the same order; a first page that is not
    full is all of them. *)
Theorem listing_is_a_window_of_the_export (q : gmap string string) (db : Store) (r : Listing) :
  listing q db = Success r ->
  let page := Js.parseIntOr (q !! "page") 1 in
  let limit := Js.parseIntOr (q !! "limit") 10 in
  exists rows,
    exportRows q db = Ok rows
    /\ listed r = window ((page - 1) * limit) limit rows
    /\ totalCount (pagination r) = Z.of_nat (length rows)
    /\ (page = 1 -> Z.of_nat (length rows) <= limit -> listed r = rows).
Proof.
  intros Hlist page limit. destruct (listing_success q db r Hlist)
    as (_ & Hpage & Hlimit & p & Hcast & Hlisted & Hpag).
  exists (sortCreatedDesc (List.filter p (bugs db))).
  unfold exportRows, find. change (exportFilter q) with (listFilter q). rewrite Hcast.
  split; [done|]. split; [exact Hlisted|]. split.
  - rewrite Hpag. cbn [totalCount paginate]. by rewrite length_sortCreatedDesc.
  - fold page limit in Hlisted. intros Hone Hfits. rewrite Hlisted, Hone. unfold window.
    change (Z.to_nat ((1 - 1) * limit)) with 0%nat. rewrite drop_0.
    apply take_ge. lia.
Qed.

End ListingFacts.

(** ** The client's queries *)

Ltac in_list := apply list_elem_of_In; simpl; tauto.
Ltac not_in_list H :=
  intros ->; apply list_elem_of_In in H; simpl in H; intuition discriminate.

(** A filter is read off seven parameters of the query. *)
Lemma listFilter_ext q q' :
  (forall k, k ∈ ["search"; "unassigned"; "assignedTo"; "status"; "priority"; "type"; "reporter"] ->
     q !! k = q' !! k) ->
  listFilter q = listFilter q'.
Proof.
  intros Hext. apply map_eq; intros i. rewrite !listFilter_lookup. unfold filter_entry.
  rewrite (Hext "search"), (Hext "unassigned"), (Hext "assignedTo") by in_list.
  destruct (decide (i = "$or")); [done|].
  destruct (decide (i = "assignedTo")); [done|].
  destruct (decide (i ∈ _)) as [Hin|]; [|done].
  rewrite (Hext i); [done|]. apply list_elem_of_In in Hin. simpl in Hin.
  apply list_elem_of_In. simpl. tauto.
Qed.

Lemma append_truthy_lookup k v params i :
  Client.append_truthy k v params !! i
  = if decide (k = i) then
      match truthy_val v with Some _ => v | None => params !! i end
    else params !! i.
Proof.
  unfold Client.append_truthy, truthy_val.
  destruct v as [s|]; [destruct (Js.truthy s)|]; rewrite ?lookup_insert;
    destruct (decide (k = i)); done.
Qed.

Lemma append_assignee_lookup v params i :
  Client.append_assignee v params !! i
  = match v with
    | Some a =>
        if Js.truthy a then
          if String.eqb a "unassigned"
          then (if decide ("unassigned" = i) then Some "true" else params !! i)
          else (if decide ("assignedTo" = i) then Some a else params !! i)
        else params !! i
    | None => params !! i
    end.
Proof.
  unfold Client.append_assignee.
  destruct v as [a|]; [|done]. destruct (Js.truthy a); [|done].
  destruct (String.eqb a "unassigned"); by rewrite lookup_insert.
Qed.

Lemma getBugsParams_lookup filters page limit i :
  i <> "page" -> i <> "limit" ->
  Client.getBugsParams filters page limit !! i = Client.exportBugsParams filters !! i.
Proof.
  intros Hp Hl. unfold Client.getBugsParams, Client.exportBugsParams. cbv zeta.
  rewrite !append_assignee_lookup, !append_truthy_lookup.
  rewrite !lookup_insert_ne by congruence. done.
Qed.

Lemma getBugsParams_page filters page limit :
  Client.getBugsParams filters page limit !! "page" = Some (Js.number_to_string page)
  /\ Client.getBugsParams filters page limit !! "limit" = Some (Js.number_to_string limit).
Proof.
  unfold Client.getBugsParams. cbv zeta.
  rewrite !append_assignee_lookup, !append_truthy_lookup.
  split.
  - destruct (filters ≫= Client.f_assigneeId) as [a|]; simpl;
      [destruct (Js.truthy a); [destruct (String.eqb a "unassigned")|]|];
      simpl; by rewrite lookup_insert_ne, lookup_insert_eq.
  - destruct (filters ≫= Client.f_assigneeId) as [a|]; simpl;
      [destruct (Js.truthy a); [destruct (String.eqb a "unassigned")|]|];
      simpl; by rewrite lookup_insert_eq.
Qed.

(** X5.  The queries that the client builds for the listing and for the
    export of the same filters give the server one and the same filter
    object: what is exported is what is listed. *)
Theorem client_lists_and_exports_one_filter
    (filters : option Client.BugFilters) (page limit : Z) :
  listFilter (Client.getBugsParams filters page limit)
  = exportFilter (Client.exportBugsParams filters).
Proof.
  change (exportFilter (Client.exportBugsParams filters))
    with (listFilter (Client.exportBugsParams filters)).
  apply listFilter_ext. intros k Hk. apply getBugsParams_lookup; not_in_list Hk.
Qed.

(** What the client sends for an optional text: it, unless it is empty. *)
Lemma sent_lookup k filters :
  k ∈ ["search"; "status"; "priority"] ->
  Client.exportBugsParams filters !! k
  = sent (filters ≫= (if String.eqb k "search" then Client.f_search
                      else if String.eqb k "status" then Client.f_status
                      else Client.f_priority)).
Proof.
  intros Hk. apply list_elem_of_In in Hk. simpl in Hk.
  unfold Client.exportBugsParams. cbv zeta.
  rewrite append_assignee_lookup.
  destruct Hk as [<-|[<-|[<-|[]]]]; simpl;
    (destruct (filters ≫= Client.f_assigneeId) as [a0|];
     [destruct (Js.truthy a0); [destruct (String.eqb a0 "unassigned")|]|]);
    simpl; rewrite !append_truthy_lookup; simpl; rewrite ?lookup_empty;
    unfold sent, truthy_val;
    repeat match goal with
    | |- context [match ?v with Some _ => _ | None => _ end] =>
        is_var v; destruct v
    | |- context [filters ≫= ?f] => destruct (filters ≫= f) as [[|? ?]|]
    end; done.
Qed.

Lemma assignee_lookup filters :
  let params := Client.exportBugsParams filters in
  params !! "assignedTo"
  = (a ← sent (filters ≫= Client.f_assigneeId);
     if String.eqb a "unassigned" then None else Some a)
  /\ params !! "unassigned"
     = (a ← sent (filters ≫= Client.f_assigneeId);
        if String.eqb a "unassigned" then Some "true" else None)
  /\ params !! "reporter" = None /\ params !! "type" = None.
Proof.
  unfold Client.exportBugsParams. cbv zeta.
  rewrite !append_assignee_lookup.
  destruct (filters ≫= Client.f_assigneeId) as [a0|];
    [destruct (Js.truthy a0) eqn:Ht; [destruct (String.eqb a0 "unassigned") eqn:Hu|]|];
    unfold sent; rewrite ?Ht; simpl; rewrite ?Hu; simpl;
    rewrite !append_truthy_lookup; simpl; rewrite ?lookup_empty; done.
Qed.

Lemma sent_not_empty v : sent v <> Some "".
Proof. unfold sent. destruct v as [[|? ?]|]; done. Qed.

(** X6.  The client never sends an assignee identifier together with the
    unassigned flag, sends the flag only as the string true and only for
    the sentinel, and sends no empty search, status, priority or
    assignee, and never a reporter or a type. *)
Theorem client_query_is_well_formed (filters : option Client.BugFilters) (page limit : Z) :
  let q := Client.getBugsParams filters page limit in
  ~ (is_Some (q !! "assignedTo") /\ is_Some (q !! "unassigned"))
  /\ (q !! "unassigned" = Some "true" <-> filters ≫= Client.f_assigneeId = Some "unassigned")
  /\ (q !! "unassigned" = None \/ q !! "unassigned" = Some "true")
  /\ q !! "search" <> Some "" /\ q !! "status" <> Some ""
  /\ q !! "priority" <> Some "" /\ q !! "assignedTo" <> Some ""
  /\ q !! "reporter" = None /\ q !! "type" = None.
Proof.
  intros q. subst q. rewrite !getBugsParams_lookup by done.
  destruct (assignee_lookup filters) as (Ha & Hu & Hr & Ht). cbv zeta in *.
  rewrite Ha, Hu, Hr, Ht.
  rewrite !sent_lookup by in_list. simpl.
  pose proof sent_not_empty as Hne.
  clear Ha Hu Hr Ht. unfold sent at 1 2 3 4 5 6 7.
  destruct (filters ≫= Client.f_assigneeId) as [a0|]; simpl.
  - destruct (Js.truthy a0) eqn:Htruthy; simpl.
    + destruct (String.eqb a0 "unassigned") eqn:Heq.
      * apply String.eqb_eq in Heq as ->.
        repeat split; try apply Hne; try done; try (by right).
        intros [[? ?] _]. done.
      * apply String.eqb_neq in Heq.
        repeat split; try apply Hne; try done; try (by left); try congruence.
        -- intros [_ [? ?]]. done.
        -- intros [= ->]. done.
    + repeat split; try apply Hne; try done; try (by left).
      * intros [[? ?] _]. done.
      * intros [= ->]. done.
  - repeat split; try apply Hne; try done; try (by left).
    intros [[? ?] _]. done.
Qed.

(** X7.  The page and the page size that the client asks for are the ones
    the server serves: for a page that is a safe integer (at most
    2^53 - 1, where [toString] writes all the digits and [parseInt] reads
    them back exactly) and a page size within the chain's range, they pass
    the validator chain and the envelope of the answer names the page
    asked. *)
Theorem client_page_reaches_the_server `{StoreEngine}
    (filters : option Client.BugFilters) (page limit : Z) (db : Store) :
  1 <= page <= 9007199254740991 -> 1 <= limit <= 100 ->
  Validator.validationResult (Client.exportBugsParams filters) = [] ->
  let q := Client.getBugsParams filters page limit in
  Validator.validationResult q = []
  /\ Js.parseIntOr (q !! "page") 1 = page
  /\ Js.parseIntOr (q !! "limit") 10 = limit
  /\ (forall r, listing q db = Success r ->
        currentPage (pagination r) = page
        /\ Z.of_nat (length (listed r)) <= limit).
Proof.
  intros Hpage Hlimit Hvalid q.
  destruct (getBugsParams_page filters page limit) as [Hqp Hql]. fold q in Hqp, Hql.
  destruct (parseInt_number_to_string page) as [Hpp Hps].
  destruct (parseInt_number_to_string limit) as [Hlp Hls].
  assert (Js.parseIntOr (q !! "page") 1 = page) as Hp.
  { rewrite Hqp. unfold Js.parseIntOr. simpl. rewrite Hpp. destruct page; [lia | done | lia]. }
  assert (Js.parseIntOr (q !! "limit") 10 = limit) as Hl.
  { rewrite Hql. unfold Js.parseIntOr. simpl. rewrite Hlp. destruct limit; [lia | done | lia]. }
  assert (Validator.validationResult q = []) as Hq.
  { apply validationResult_nil. intros c Hc.
    pose proof (validation_passes _ c Hvalid Hc) as Hf. simpl in Hc.
    destruct Hc as [<-|[<-|[<-|[<-|[<-|[<-|[<-|[<-|[]]]]]]]]]; unfold Validator.fails in *;
      simpl in *; rewrite ?Hqp, ?Hql;
      try (subst q; rewrite getBugsParams_lookup by done; exact Hf).
    - unfold Validator.isInt. rewrite Hps, Hpp. simpl.
      apply negb_false_iff, andb_true_iff. split; [apply Z.leb_le; lia | done].
    - unfold Validator.isInt. rewrite Hls, Hlp. simpl.
      apply negb_false_iff, andb_true_iff. split; apply Z.leb_le; lia. }
  split; [done|]. split; [done|]. split; [done|].
  intros r Hr. destruct (listing_success q db r Hr) as (_ & _ & _ & p & _ & Hlisted & Hpag).
  rewrite Hp, Hl in Hlisted, Hpag. rewrite Hpag. split; [done|].
  rewrite Hlisted, length_window by nia. lia.
Qed.

(** X8.  The envelope that the client hands on: for the envelope of a
    listing it shows one page where the server counts none, so that its
    number of pages is never below 1; the page, the flags and a positive
    total are passed on; a missing envelope becomes page 1 of 1 with the
    number of bugs shown as total. *)
Theorem client_envelope (N p s shown : Z) :
  0 <= N -> 1 <= p -> 1 <= s ->
  let server := paginate N p s in
  let e := Client.clientPagination (Client.wire server) shown in
  totalPages e = Z.max 1 (totalPages server)
  /\ (N = 0 -> totalPages e = 1 /\ totalCount e = shown)
  /\ (0 < N -> totalCount e = N)
  /\ currentPage e = p
  /\ hasNext e = hasNext server /\ hasPrev e = hasPrev server
  /\ (hasNext e = true <-> p < totalPages e)
  /\ Client.clientPagination (Client.mkWire None None None None None) shown
     = mkPagination 1 1 shown false false.
Proof.
  intros HN Hp Hs server e.
  pose proof (Math_ceil_div_spec N s ltac:(lia)) as Hceil.
  assert (0 <= Math_ceil_div N s) as Hnonneg by nia.
  subst e server. unfold Client.clientPagination, Client.wire, paginate. simpl.
  split; [|split; [|split; [|split; [|split; [|split; [|split]]]]]].
  - destruct (Math_ceil_div N s) eqn:Hc; simpl; lia.
  - intros ->. assert (Math_ceil_div 0 s = 0) as -> by nia. done.
  - intros Hpos. destruct N; simpl; lia.
  - destruct p; simpl; lia.
  - by destruct (p <? Math_ceil_div N s).
  - by destruct (1 <? p).
  - destruct (p <? Math_ceil_div N s) eqn:Hlt; simpl.
    + apply Z.ltb_lt in Hlt. split; [|done]. intros _.
      destruct (Math_ceil_div N s); simpl; lia.
    + apply Z.ltb_ge in Hlt. split; [done|]. intros Hlt'.
      destruct (Math_ceil_div N s); simpl in *; lia.
  - reflexivity.
Qed.

(** ** More on the export *)

Lemma replaceAll_dquote_inj s t :
  Js.replaceAll Js.dquote (quoted "") s = Js.replaceAll Js.dquote (quoted "") t -> s = t.
Proof.
  revert t. induction s as [|a s IH]; intros [|b t]; simpl.
  - done.
  - destruct (Ascii.eqb b Js.dquote); discriminate.
  - destruct (Ascii.eqb a Js.dquote); discriminate.
  - destruct (Ascii.eqb_spec a Js.dquote) as [->|Ha], (Ascii.eqb_spec b Js.dquote) as [->|Hb];
      simpl.
    + intros [= Heq]. f_equal. by apply IH.
    + intros [= Hab _]. congruence.
    + intros [= Hab _]. congruence.
    + intros [= -> Heq]. f_equal. by apply IH.
Qed.

Lemma app_inj_tail_string s t c : s +:+ String c "" = t +:+ String c "" -> s = t.
Proof.
  revert t. induction s as [|a s IH]; intros [|b t]; simpl; try done.
  - intros [= <- Heq]. destruct t; discriminate.
  - intros [= -> Heq]. destruct s; discriminate.
  - intros [= -> Heq]. f_equal. by apply IH.
Qed.

Lemma escaped_is_not_plain field :
  plain field = false -> plain (escapeCSV field) = false.
Proof.
  intros Hp. unfold escapeCSV, plain in *.
  destruct (Js.includes Js.comma field || Js.includes Js.dquote field
            || Js.includes Js.newline field) eqn:Hinc.
  - simpl. by rewrite andb_false_r.
  - apply orb_false_iff in Hinc as [Hinc Hn]. apply orb_false_iff in Hinc as [Hc Hq].
    by rewrite Hc, Hq, Hn in Hp.
Qed.

Lemma length_append_string s t :
  String.length (s +:+ t) = (String.length s + String.length t)%nat.
Proof. induction s as [|a s IH]; simpl; [done|]. by rewrite IH. Qed.

Lemma length_replaceAll_dquote s :
  (String.length s <= String.length (Js.replaceAll Js.dquote (quoted "") s))%nat.
Proof.
  induction s as [|a s IH]; [done|].
  cbn [Js.replaceAll]. destruct (Ascii.eqb a Js.dquote).
  - rewrite length_append_string. change (String.length (quoted "")) with 2%nat.
    cbn [String.length] in *. lia.
  - cbn [String.length]. lia.
Qed.

(** X9.  [escapeCSV] loses nothing: two different values are never
    written as the same field, and a value is written with quotes around
    it exactly when it holds a comma, a double quote or a newline. *)
Theorem escapeCSV_is_injective (a b : string) :
  (escapeCSV a = escapeCSV b -> a = b)
  /\ (plain a = true <-> escapeCSV a = a)
  /\ (plain a = false <-> exists body, escapeCSV a = quoted body).
Proof.
  assert (forall f, plain f = false ->
            escapeCSV f = quoted (Js.replaceAll Js.dquote (quoted "") f)) as Hwrap.
  { intros f Hf. unfold plain, escapeCSV, quoted in *.
    destruct (Js.includes Js.comma f), (Js.includes Js.dquote f), (Js.includes Js.newline f);
      done. }
  assert (forall f, plain f = true -> Js.includes Js.dquote f = false) as Hnoq.
  { intros f. unfold plain. destruct (Js.includes Js.dquote f); [|done].
    by rewrite andb_false_r. }
  split; [|split].
  - destruct (plain a) eqn:Ha, (plain b) eqn:Hb.
    + by rewrite !plain_escapeCSV.
    + rewrite (plain_escapeCSV a Ha). intros Heq.
      pose proof (escaped_is_not_plain b Hb) as Hnp. rewrite <- Heq in Hnp. congruence.
    + rewrite (plain_escapeCSV b Hb). intros Heq.
      pose proof (escaped_is_not_plain a Ha) as Hnp. rewrite Heq in Hnp. congruence.
    + rewrite (Hwrap a Ha), (Hwrap b Hb). unfold quoted at 1 3. intros [= Heq].
      by apply app_inj_tail_string, replaceAll_dquote_inj in Heq.
  - split; [apply plain_escapeCSV|]. intros Heq.
    destruct (plain a) eqn:Ha; [done|].
    apply (f_equal String.length) in Heq. rewrite (Hwrap a Ha) in Heq.
    unfold quoted at 1 in Heq. simpl in Heq. rewrite length_append_string in Heq.
    pose proof (length_replaceAll_dquote a). simpl in *. lia.
  - split.
    + intros Ha. eexists. by apply Hwrap.
    + intros [body Hbody]. destruct (plain a) eqn:Ha; [|done].
      rewrite (plain_escapeCSV a Ha) in Hbody. apply Hnoq in Ha.
      rewrite Hbody in Ha. unfold quoted in Ha. simpl in Ha. discriminate.
Qed.

Lemma filter_none {A} (p : A -> bool) l : (forall x, p x = false) -> List.filter p l = [].
Proof. intros Hp. induction l as [|x l IH]; simpl; [done|]. by rewrite Hp. Qed.

Lemma append_empty_r s : s +:+ "" = s.
Proof.
  induction s as [|a s IH]; [done|].
  change (String a s +:+ "") with (String a (s +:+ "")). by f_equal.
Qed.

Lemma name_not_foreign {K} (name : K -> string) (all : list K) (v : string) :
  (forall k, k ∈ all) -> v ∉ map name all -> forall k, String.eqb (name k) v = false.
Proof.
  intros Hall Hv k. apply String.eqb_neq. intros <-. apply Hv.
  apply list_elem_of_In, in_map, list_elem_of_In, Hall.
Qed.

Section UnknownEnum.
Context `{StoreEngine} `{RawEngine}.

Lemma no_rows_is_header_only q db :
  (forall p, castFilterRaw (exportFilterRaw q) = Ok p -> forall b, p b = false) ->
  (exportBugsRaw q db = Success csvHeader \/ exportBugsRaw q db = Failed "Failed to export bugs")
  /\ (forall rows, exportRowsRaw q db = Ok rows -> rows = []).
Proof.
  intros Hnone. unfold exportBugsRaw, exportRowsRaw. split.
  - destruct (castFilterRaw (exportFilterRaw q)) as [p|]; simpl; [|by right].
    left. rewrite (filter_none p _ (Hnone p eq_refl)).
    cbn [sortCreatedDesc foldr map Js.join]. by rewrite append_empty_r.
  - intros rows. destruct (castFilterRaw (exportFilterRaw q)) as [p|]; simpl; [|done].
    intros [= <-]. by rewrite (filter_none p _ (Hnone p eq_refl)).
Qed.

(** X10.  A status, priority or type that is a string, not empty and not
    one of the enumeration, selects no bug: an export that succeeds is
    the header line alone. *)
Theorem unknown_enum_value_selects_nothing (q : gmap string QVal) (db : Store) (v : string) :
  v <> "" ->
  (q !! "status" = Some (QStr v) /\ v ∉ status_values)
  \/ (q !! "priority" = Some (QStr v) /\ v ∉ priority_values)
  \/ (q !! "type" = Some (QStr v) /\ v ∉ type_values) ->
  (exportBugsRaw q db = Success csvHeader \/ exportBugsRaw q db = Failed "Failed to export bugs")
  /\ (forall rows, exportRowsRaw q db = Ok rows -> rows = []).
Proof.
  intros Hv Hcases. apply no_rows_is_header_only.
  intros p. unfold castFilterRaw, exportFilterRaw.
  cbn [rf_status rf_priority rf_type rf_assignedTo rf_reporter rf_or].
  destruct v as [|c v]; [done|].
  destruct Hcases as [[Hq Hnot]|[[Hq Hnot]|[Hq Hnot]]]; rewrite Hq; simpl.
  - destruct (cast_value "priority" _ _) as [p2|]; [|done].
    destruct (cast_value "type" _ _) as [p3|]; [|done]. simpl.
    destruct (cast_value "assignedTo" _ _) as [p4|]; [|done]. simpl.
    destruct (cast_value "reporter" _ _) as [p5|]; [|done]. simpl.
    destruct (cast_search _) as [p6|]; [|done]. simpl. intros [= <-] b.
    rewrite (name_not_foreign status_name [Open; InProgress; Resolved; Closed; Reopened]
               (String c v));
      [done | by intros [] ; in_list | exact Hnot].
  - destruct (cast_value "status" _ _) as [p1|]; [|done]. simpl.
    destruct (cast_value "type" _ _) as [p3|]; [|done]. simpl.
    destruct (cast_value "assignedTo" _ _) as [p4|]; [|done]. simpl.
    destruct (cast_value "reporter" _ _) as [p5|]; [|done]. simpl.
    destruct (cast_search _) as [p6|]; [|done]. simpl. intros [= <-] b.
    rewrite (name_not_foreign priority_name [Low; Medium; High; Critical] (String c v));
      [by rewrite andb_false_r | by intros [] ; in_list | exact Hnot].
  - destruct (cast_value "status" _ _) as [p1|]; [|done]. simpl.
    destruct (cast_value "priority" _ _) as [p2|]; [|done]. simpl.
    destruct (cast_value "assignedTo" _ _) as [p4|]; [|done]. simpl.
    destruct (cast_value "reporter" _ _) as [p5|]; [|done]. simpl.
    destruct (cast_search _) as [p6|]; [|done]. simpl. intros [= <-] b.
    rewrite (name_not_foreign type_name [TBug; TFeature; TImprovement; TTask] (String c v));
      [by rewrite andb_false_r | by intros [] ; in_list | exact Hnot].
Qed.

End UnknownEnum.

(** ** More on the analytics *)

Lemma bump_keys {K} `{EqDecision K} (k : K) groups :
  NoDup (map fst groups) ->
  NoDup (map fst (bump k groups))
  /\ (forall k', k' ∈ map fst (bump k groups) <-> k' = k \/ k' ∈ map fst groups).
Proof.
  induction groups as [|[k0 n] r IH]; simpl; intros Hnd.
  - split; [apply NoDup_singleton|]. intros k'. rewrite list_elem_of_singleton.
    rewrite elem_of_nil. tauto.
  - apply NoDup_cons in Hnd as [Hk0 Hr]. destruct (IH Hr) as [Hnd' Hin].
    destruct (decide (k0 = k)) as [->|Hne]; simpl.
    + split; [by apply NoDup_cons|]. intros k'. rewrite elem_of_cons. simpl.
      split; [tauto|]. intros [->|[->|?]]; tauto.
    + split.
      * apply NoDup_cons. split; [|exact Hnd']. rewrite Hin. simpl in *.
        intros [?|?]; done.
      * intros k'. rewrite !elem_of_cons, Hin. simpl. tauto.
Qed.

Lemma bump_positive {K} `{EqDecision K} (k : K) groups :
  Forall (fun g => 1 <= g.2) groups -> Forall (fun g => 1 <= g.2) (bump k groups).
Proof.
  induction 1 as [|[k0 n] r Hn Hr IH]; simpl.
  - by repeat constructor.
  - destruct (decide (k0 = k)); constructor; simpl in *; try done; lia.
Qed.

Lemma groupCount_keys {K} `{EqDecision K} (key : Bug -> K) l :
  NoDup (map fst (groupCount key l))
  /\ Forall (fun g => 1 <= g.2) (groupCount key l)
  /\ (forall k, k ∈ map fst (groupCount key l) <-> exists b, b ∈ l /\ key b = k).
Proof.
  unfold groupCount.
  assert (forall groups,
            NoDup (map fst groups) -> Forall (fun g => 1 <= g.2) groups ->
            let out := fold_left (fun gs b => bump (key b) gs) l groups in
            NoDup (map fst out) /\ Forall (fun g => 1 <= g.2) out
            /\ (forall k, k ∈ map fst out <->
                  k ∈ map fst groups \/ exists b, b ∈ l /\ key b = k)) as Hgen.
  { induction l as [|b r IH]; intros groups Hnd Hpos; simpl.
    - split; [done|]. split; [done|]. intros k. split; [by left|].
      intros [?|(b & Hb & _)]; [done|]. by apply elem_of_nil in Hb.
    - destruct (bump_keys (key b) groups Hnd) as [Hnd' Hin].
      destruct (IH (bump (key b) groups) Hnd' (bump_positive _ _ Hpos)) as (H1 & H2 & H3).
      split; [done|]. split; [done|]. intros k. rewrite H3, Hin. split.
      + intros [[->|?]|(b' & Hb' & Hk)]; [right; exists b | by left | right; exists b'];
          rewrite elem_of_cons; tauto.
      + intros [?|(b' & Hb' & Hk)]; [tauto|].
        apply elem_of_cons in Hb' as [->|Hb']; [by left; left|]. right. by exists b'. }
  destruct (Hgen [] (NoDup_nil_2) (Forall_nil_2 _)) as (H1 & H2 & H3).
  split; [done|]. split; [done|]. intros k. rewrite H3. simpl. rewrite elem_of_nil. tauto.
Qed.

Lemma group_lookup_named {K} `{EqDecision K} (name : K -> string) (k : K) groups :
  (forall a b, name a = name b -> a = b) ->
  group_lookup (name k) (map (fun item => (name item.1, item.2)) groups)
  = group_lookup k groups.
Proof.
  intros Hinj. induction groups as [|[k0 n] r IH]; simpl; [done|].
  destruct (decide (name k0 = name k)) as [Heq|Hne].
  - apply Hinj in Heq. by rewrite decide_True.
  - rewrite decide_False by congruence. exact IH.
Qed.

Lemma status_name_inj a b : status_name a = status_name b -> a = b.
Proof. by destruct a, b. Qed.
Lemma priority_name_inj a b : priority_name a = priority_name b -> a = b.
Proof. by destruct a, b. Qed.
Lemma type_name_inj a b : type_name a = type_name b -> a = b.
Proof. by destruct a, b. Qed.

Lemma count_by_status l :
  Z.of_nat (length l)
  = Z.of_nat (length (List.filter (has_status Open) l))
    + Z.of_nat (length (List.filter (has_status InProgress) l))
    + Z.of_nat (length (List.filter (has_status Resolved) l))
    + Z.of_nat (length (List.filter (has_status Closed) l))
    + Z.of_nat (length (List.filter (has_status Reopened) l)).
Proof.
  induction l as [|b r IH]; [done|]. cbn [List.filter].
  assert (forall s, has_status s b = bool_decide (status b = s)) as Hs by done.
  rewrite !Hs. destruct (status b);
    repeat first [rewrite bool_decide_eq_true_2 by done
                 | rewrite bool_decide_eq_false_2 by done];
    cbn [length]; lia.
Qed.

(** X11.  The flat counters of the analytics report are the counts that
    its distributions hold under the same value; the four status
    counters add up to the total less the reopened bugs, which have no
    counter of their own; the recent count is at most the total. *)
Theorem counters_agree_with_distributions (tz : JsDate.TimeZone) (clock : Clock) (db : Store) :
  exists r,
    analytics tz clock db = Success r
    /\ openBugs r = group_lookup "open" (statusDistribution r)
    /\ inProgressBugs r = group_lookup "in-progress" (statusDistribution r)
    /\ resolvedBugs r = group_lookup "resolved" (statusDistribution r)
    /\ closedBugs r = group_lookup "closed" (statusDistribution r)
    /\ highPriorityBugs r = group_lookup "high" (priorityDistribution r)
    /\ criticalBugs r = group_lookup "critical" (priorityDistribution r)
    /\ openBugs r + inProgressBugs r + resolvedBugs r + closedBugs r
       = totalBugs r - group_lookup "reopened" (statusDistribution r)
    /\ 0 <= recentBugs r <= totalBugs r.
Proof.
  eexists. split; [reflexivity|]. cbn [openBugs inProgressBugs resolvedBugs closedBugs
    highPriorityBugs criticalBugs totalBugs recentBugs statusDistribution priorityDistribution].
  change "open" with (status_name Open). change "in-progress" with (status_name InProgress).
  change "resolved" with (status_name Resolved). change "closed" with (status_name Closed).
  change "reopened" with (status_name Reopened).
  change "high" with (priority_name High). change "critical" with (priority_name Critical).
  rewrite !(group_lookup_named status_name) by apply status_name_inj.
  rewrite !(group_lookup_named priority_name) by apply priority_name_inj.
  rewrite !group_lookup_groupCount. unfold countWhere.
  repeat split; try reflexivity.
  - rewrite filter_true, (count_by_status (bugs db)). unfold has_status. lia.
  - lia.
  - rewrite filter_true. pose proof (List.filter_length_le
      (fun b => sevenDaysBefore tz (clock 0%nat) <=? createdAt b) (bugs db)). unfold newDate. simpl. lia.
Qed.

Lemma NoDup_map_inj {A B} (f : A -> B) (l : list A) :
  (forall a b, f a = f b -> a = b) -> NoDup l -> NoDup (map f l).
Proof.
  intros Hinj. induction 1 as [|x l Hx Hl IH]; simpl; [constructor|].
  constructor; [|exact IH]. intros Hin. apply Hx.
  apply list_elem_of_In, in_map_iff in Hin as (y & Hy & Hin).
  apply Hinj in Hy as ->. by apply list_elem_of_In.
Qed.

(** X12.  The distributions of the report are sparse: one entry for each
    value that some bug has, none for a value that no bug has, no value
    twice and no count below 1. *)
Theorem distributions_are_sparse (tz : JsDate.TimeZone) (clock : Clock) (db : Store) :
  exists r,
    analytics tz clock db = Success r
    /\ NoDup (map fst (statusDistribution r))
    /\ NoDup (map fst (priorityDistribution r))
    /\ Forall (fun item => 1 <= item.2) (statusDistribution r)
    /\ Forall (fun item => 1 <= item.2) (priorityDistribution r)
    /\ (forall s, status_name s ∈ map fst (statusDistribution r)
                    <-> exists b, b ∈ bugs db /\ status b = s)
    /\ (forall p, priority_name p ∈ map fst (priorityDistribution r)
                    <-> exists b, b ∈ bugs db /\ priority b = p).
Proof.
  eexists. split; [reflexivity|]. cbn [statusDistribution priorityDistribution].
  destruct (groupCount_keys status (bugs db)) as (Hs1 & Hs2 & Hs3).
  destruct (groupCount_keys priority (bugs db)) as (Hp1 & Hp2 & Hp3).
  rewrite !List.map_map. cbn [fst].
  rewrite <- !(List.map_map fst).
  split; [by apply NoDup_map_inj; [apply status_name_inj|]|].
  split; [by apply NoDup_map_inj; [apply priority_name_inj|]|].
  split; [by apply Forall_map|]. split; [by apply Forall_map|]. split.
  - intros s. rewrite <- Hs3. split.
    + intros Hin. apply list_elem_of_In, in_map_iff in Hin as (k & Hk & Hin).
      apply status_name_inj in Hk as ->. by apply list_elem_of_In.
    + intros Hin. by apply list_elem_of_In, in_map, list_elem_of_In.
  - intros p. rewrite <- Hp3. split.
    + intros Hin. apply list_elem_of_In, in_map_iff in Hin as (k & Hk & Hin).
      apply priority_name_inj in Hk as ->. by apply list_elem_of_In.
    + intros Hin. by apply list_elem_of_In, in_map, list_elem_of_In.
Qed.


Lemma insert_by_count_perm g l : insert_by_count g l ≡ₚ g :: l.
Proof.
  induction l as [|x r IH]; simpl; [done|].
  destruct (x.2 <=? g.2); [done|]. rewrite IH. apply Permutation_swap.
Qed.

Lemma insert_by_count_sorted g l :
  StronglySorted by_count_desc l -> StronglySorted by_count_desc (insert_by_count g l).
Proof.
  induction 1 as [|x r Hsorted IH Hall]; simpl.
  - repeat constructor.
  - destruct (Z.leb_spec (x.2) (g.2)) as [Hle|Hgt].
    + constructor; [by constructor|]. constructor; [exact Hle|].
      eapply Forall_impl; [exact Hall|]. unfold by_count_desc. intros y Hy. simpl in *. lia.
    + constructor; [exact IH|]. rewrite insert_by_count_perm. constructor; [|exact Hall].
      unfold by_count_desc. lia.
Qed.

Lemma sort_by_count l :
  StronglySorted by_count_desc (foldr insert_by_count [] l)
  /\ foldr insert_by_count [] l ≡ₚ l.
Proof.
  induction l as [|g r [IH1 IH2]]; simpl; [split; [constructor | done]|].
  split; [by apply insert_by_count_sorted|]. by rewrite insert_by_count_perm, IH2.
Qed.


Lemma bump_named_facts k name groups :
  Forall (fun g => 1 <= g.2) groups ->
  Forall (fun g => 1 <= g.2) (bump_named k name groups)
  /\ total3 (bump_named k name groups) = total3 groups + 1.
Proof.
  induction 1 as [|[[k0 nm] n] r Hn Hr [IH1 IH2]]; simpl.
  - split; [by repeat constructor | done].
  - destruct (decide (k0 = k)); simpl in *.
    + split; [constructor; simpl; [lia | done] | lia].
    + split; [by constructor | lia].
Qed.

Lemma fold_bump_named_facts (joined : list (ObjectId * string)) groups :
  Forall (fun g => 1 <= g.2) groups ->
  let out := fold_left (fun gs '(k, name) => bump_named k name gs) joined groups in
  Forall (fun g => 1 <= g.2) out
  /\ total3 out = total3 groups + Z.of_nat (length joined).
Proof.
  revert groups. induction joined as [|[k name] r IH]; intros groups Hpos; simpl.
  - split; [done | lia].
  - destruct (bump_named_facts k name groups Hpos) as [H1 H2].
    destruct (IH _ H1) as [H3 H4]. split; [done|]. rewrite H4, H2. lia.
Qed.

Lemma total3_perm l1 l2 : l1 ≡ₚ l2 -> total3 l1 = total3 l2.
Proof. induction 1; simpl; lia. Qed.

Lemma total3_take n l : Forall (fun g => 1 <= g.2) l -> total3 (take n l) <= total3 l.
Proof.
  intros Hpos. revert n. induction Hpos as [|g r Hg Hr IH]; intros [|n]; simpl; try lia.
  - assert (0 <= total3 r); [|lia]. clear IH. induction Hr; simpl; lia.
  - specialize (IH n). lia.
Qed.

Lemma length_omap_populate db l :
  (length (omap (fun b => u ← populate db (assignedTo b);
                           Some (user_id u, display_name (Some u) "")) l)
   <= length (List.filter (fun b => negb (unassigned b)) l))%nat.
Proof.
  set (f := fun b : Bug => _).
  induction l as [|b r IH]; [done|].
  change (omap f (b :: r)) with (match f b with Some y => y :: omap f r | None => omap f r end).
  change (List.filter (fun b => negb (unassigned b)) (b :: r))
    with (if negb (unassigned b) then b :: List.filter (fun b => negb (unassigned b)) r
          else List.filter (fun b => negb (unassigned b)) r).
  unfold f at 1. unfold unassigned at 1. unfold populate at 1.
  destruct (assignedTo b) as [o|]; simpl; [|exact IH].
  destruct (List.find _ (users db)); simpl; lia.
Qed.

(** X13.  The assignee statistics hold at most five entries, largest
    count first; each counts at least one bug, and together they count no
    more bugs than have an assignee. *)
Theorem assignee_statistics_are_a_top_five (db : Store) :
  (length (assigneeStats db) <= 5)%nat
  /\ StronglySorted (fun a b : string * Z => b.2 <= a.2) (assigneeStats db)
  /\ Forall (fun item => 1 <= item.2) (assigneeStats db)
  /\ sum_counts (assigneeStats db) <= countWhere (fun b => negb (unassigned b)) db.
Proof.
  change (assigneeStats db)
    with (map (fun g : ObjectId * string * Z => (g.1.2, g.2)) (take 5 (assigneeGroups db))).
  unfold assigneeGroups.
  set (joined := omap _ (bugs db)).
  destruct (fold_bump_named_facts joined [] (Forall_nil_2 _)) as [Hpos Htotal].
  cbv zeta in Hpos, Htotal.
  set (groups := fold_left _ joined []) in *.
  destruct (sort_by_count groups) as [Hsorted Hperm].
  set (sorted := foldr insert_by_count [] groups) in *.
  assert (Forall (fun g : ObjectId * string * Z => 1 <= g.2) sorted) as Hpos'
    by (by rewrite Hperm).
  split; [|split; [|split]].
  - rewrite length_map, length_take. lia.
  - assert (StronglySorted by_count_desc (take 5 sorted)) as Ht
      by (eapply StronglySorted_sublist; [apply sublist_take | exact Hsorted]).
    induction Ht as [|g r Hr IH Hall]; simpl; constructor; [exact IH|].
    apply Forall_map. exact Hall.
  - apply Forall_map. by apply Forall_take.
  - transitivity (total3 (take 5 sorted)).
    + clear. induction (take 5 sorted) as [|g r IH]; simpl; lia.
    + etrans; [by apply total3_take|]. rewrite (total3_perm _ _ Hperm), Htotal.
      unfold countWhere. simpl. pose proof (length_omap_populate db (bugs db)). subst joined. lia.
Qed.


Lemma insert_month_perm g l : insert_month g l ≡ₚ g :: l.
Proof.
  induction l as [|x r IH]; simpl; [done|].
  destruct (_ || _); [done|]. rewrite IH. apply Permutation_swap.
Qed.

Lemma month_before_trans a b c : month_before a b -> month_before b c -> month_before a c.
Proof. unfold month_before. lia. Qed.

Lemma insert_month_sorted g l :
  g.1 ∉ map fst l ->
  StronglySorted month_before l -> StronglySorted month_before (insert_month g l).
Proof.
  intros Hfresh Hsorted. induction Hsorted as [|x r Hsorted IH Hall]; simpl.
  - repeat constructor.
  - simpl in Hfresh. apply not_elem_of_cons in Hfresh as [Hne Hfresh].
    destruct ((g.1.1 <? x.1.1) || ((g.1.1 =? x.1.1) && (g.1.2 <? x.1.2))) eqn:Hcmp.
    + assert (month_before g x) as Hgx by (unfold month_before; lia).
      constructor; [by constructor|]. constructor; [exact Hgx|].
      eapply Forall_impl; [exact Hall|]. intros y Hy. by eapply month_before_trans.
    + assert (month_before x g) as Hxg.
      { unfold month_before.
        destruct g as [[gy gm] gn], x as [[xy xm] xn]. simpl in *.
        assert (gy <> xy \/ gm <> xm) by (destruct (decide (gy = xy)); [right|left]; congruence).
        lia. }
      constructor; [by apply IH|]. rewrite insert_month_perm. by constructor.
Qed.

Lemma sort_months l :
  NoDup (map fst l) ->
  StronglySorted month_before (foldr insert_month [] l)
  /\ foldr insert_month [] l ≡ₚ l.
Proof.
  induction l as [|g r IH]; simpl; intros Hnd; [split; [constructor | done]|].
  apply NoDup_cons in Hnd as [Hg Hr]. destruct (IH Hr) as [IH1 IH2].
  split; [|by rewrite insert_month_perm, IH2].
  apply insert_month_sorted; [|exact IH1]. by rewrite IH2.
Qed.

Lemma total_perm {K} (l1 l2 : list (K * Z)) : l1 ≡ₚ l2 -> total l1 = total l2.
Proof. induction 1; simpl; lia. Qed.

(** X14.  The monthly trend lists the months in which a bug of the window
    was created, each once and in calendar order, and counts every bug of
    the window in exactly one of them. *)
Theorem monthly_trend_partitions_the_window (since : Z) (db : Store) :
  StronglySorted month_before (monthlyGroups since db)
  /\ Forall (fun g => 1 <= g.2) (monthlyGroups since db)
  /\ (forall y m, (y, m) ∈ map fst (monthlyGroups since db)
        <-> exists b, b ∈ bugs db /\ since <= createdAt b
                      /\ JsDate.year_of (createdAt b) = y
                      /\ JsDate.month_of (createdAt b) = m)
  /\ monthlyTrend since db
     = map (fun g => (Js.number_to_string g.1.1 +:+ "-" +:+ Js.fixed_digits 2 g.1.2, g.2))
           (monthlyGroups since db)
  /\ sum_counts (monthlyTrend since db) = countWhere (fun b => since <=? createdAt b) db.
Proof.
  unfold monthlyTrend, monthlyGroups.
  set (recent := List.filter _ (bugs db)).
  set (key := fun b : Bug => (JsDate.year_of (createdAt b), JsDate.month_of (createdAt b))).
  destruct (groupCount_keys key recent) as (Hnd & Hpos & Hkeys).
  destruct (sort_months _ Hnd) as [Hsorted Hperm].
  split; [exact Hsorted|]. split; [by rewrite Hperm|]. split; [|split; [done|]].
  - intros y m. rewrite Hperm, Hkeys. unfold key, recent. split.
    + intros (b & Hb & Heq). apply list_elem_of_In, filter_In in Hb as [Hb Hsince].
      exists b. apply list_elem_of_In in Hb. apply Z.leb_le in Hsince.
      inversion Heq. done.
    + intros (b & Hb & Hsince & <- & <-). exists b. split; [|done].
      apply list_elem_of_In, filter_In. split; [by apply list_elem_of_In | by apply Z.leb_le].
  - rewrite (sum_counts_named (fun k : Z * Z =>
               Js.number_to_string k.1 +:+ "-" +:+ Js.fixed_digits 2 k.2)).
    rewrite (total_perm _ _ Hperm), total_groupCount. done.
Qed.

(** ** Writes *)

Lemma findById_None id db : findById id db = None <-> id ∉ map bug_id (bugs db).
Proof.
  unfold findById. induction (bugs db) as [|b r IH]; simpl.
  - split; [intros _; apply not_elem_of_nil | done].
  - rewrite not_elem_of_cons. destruct (decide (bug_id b = id)) as [Heq|Hne].
    + rewrite (bool_decide_eq_true_2 _ Heq). split; [done | intros [? _]; congruence].
    + rewrite (bool_decide_eq_false_2 _ Hne). rewrite IH. split; [|tauto].
      intros ?. split; [congruence | done].
Qed.

Lemma findById_Some id db b : findById id db = Some b -> b ∈ bugs db /\ bug_id b = id.
Proof.
  unfold findById. intros Hfind. apply find_some in Hfind as [Hin Hid].
  split; [by apply list_elem_of_In | by apply bool_decide_eq_true_1 in Hid].
Qed.

Lemma find_remove_first id id' l :
  NoDup (map bug_id l) ->
  List.find (fun x => bool_decide (bug_id x = id')) (remove_first id l)
  = if decide (id' = id) then None
    else List.find (fun x => bool_decide (bug_id x = id')) l.
Proof.
  induction l as [|x r IH]; simpl; intros Hnd.
  - by destruct (decide (id' = id)).
  - apply NoDup_cons in Hnd as [Hx Hr].
    destruct (decide (bug_id x = id)) as [Hid|Hid].
    + rewrite (bool_decide_eq_true_2 _ Hid).
      destruct (decide (id' = id)) as [->|Hne].
      * subst id. apply (findById_None (bug_id x) {| bugs := r; users := [] |}). exact Hx.
      * rewrite bool_decide_eq_false_2 by congruence. done.
    + rewrite (bool_decide_eq_false_2 _ Hid). simpl. rewrite (IH Hr).
      destruct (decide (id' = id)) as [->|Hne].
      * by rewrite (bool_decide_eq_false_2 _ Hid).
      * done.
Qed.

Lemma length_remove_first id l :
  id ∈ map bug_id l -> S (length (remove_first id l)) = length l.
Proof.
  induction l as [|x r IH]; simpl; [by intros ?%elem_of_nil|].
  intros Hin. destruct (decide (bug_id x = id)) as [Hid|Hid].
  - by rewrite (bool_decide_eq_true_2 _ Hid).
  - rewrite (bool_decide_eq_false_2 _ Hid). simpl. f_equal. apply IH.
    apply elem_of_cons in Hin as [?|?]; [congruence | done].
Qed.

Lemma remove_first_sublist id l : remove_first id l `sublist_of` l.
Proof.
  induction l as [|x r IH]; simpl; [done|].
  destruct (bool_decide (bug_id x = id)); [by apply sublist_cons | by apply sublist_skip].
Qed.

Lemma pre_save_keeps m now doc :
  bug_id (pre_save m now doc) = bug_id doc
  /\ title (pre_save m now doc) = title doc
  /\ description (pre_save m now doc) = description doc
  /\ priority (pre_save m now doc) = priority doc
  /\ status (pre_save m now doc) = status doc
  /\ type (pre_save m now doc) = type doc
  /\ assignedTo (pre_save m now doc) = assignedTo doc
  /\ reporter (pre_save m now doc) = reporter doc
  /\ createdAt (pre_save m now doc) = createdAt doc
  /\ updatedAt (pre_save m now doc) = updatedAt doc.
Proof.
  unfold pre_save. destruct m; [|done].
  destruct (_ && _); [done|]. by destruct (negb _).
Qed.

Lemma find_id_app id l b :
  List.find (fun x => bool_decide (bug_id x = id)) (l ++ [b])%list
  = match List.find (fun x => bool_decide (bug_id x = id)) l with
    | Some x => Some x
    | None => if bool_decide (bug_id b = id) then Some b else None
    end.
Proof. induction l as [|x r IH]; simpl; [done|]. by destruct (bool_decide (bug_id x = id)). Qed.

Section CreateFacts.
Context `{StoreEngine}.

Lemma saveNew_stores save body assignee reporter_id db bug db' :
  fresh save ∉ map bug_id (bugs db) ->
  saveNew save body assignee reporter_id db = Success (bug, db') ->
  bugs db' = (bugs db ++ [bug])%list
  /\ users db' = users db
  /\ findById (fresh save) db' = Some bug
  /\ (forall id, id <> fresh save -> findById id db' = findById id db)
  /\ bug_id bug = fresh save
  /\ status bug = Open
  /\ resolvedAt bug = None
  /\ reporter bug = reporter_id
  /\ assignedTo bug = assignee
  /\ priority bug = c_priority body
  /\ createdAt bug = saved_at save
  /\ dueDate_accepted (c_dueDate body) (validated_at save) = true
  /\ schema_accepts save = true
  /\ countWhere (fun _ => true) db' = countWhere (fun _ => true) db + 1.
Proof.
  intros Hfresh. unfold saveNew.
  destruct (dueDate_accepted _ _) eqn:Hdate; [|done].
  destruct (schema_accepts save) eqn:Hschema; [|done]. simpl.
  set (doc := mkBug _ _ _ _ _ _ _ _ _ _ _).
  destruct (pre_save_keeps (status_modified save) (saved_at save) doc)
    as (K1 & _ & _ & K4 & K5 & _ & K7 & K8 & K9 & _).
  assert (resolvedAt (pre_save (status_modified save) (saved_at save) doc) = None) as Hres
    by (destruct (status_modified save); done).
  intros [= <- <-].
  split; [done|]. split; [done|]. split.
  { unfold findById. simpl. rewrite find_id_app.
    apply findById_None in Hfresh. unfold findById in Hfresh. rewrite Hfresh.
    by rewrite bool_decide_eq_true_2. }
  split.
  { intros id Hne. unfold findById. simpl. rewrite find_id_app.
    destruct (List.find _ (bugs db)); [done|].
    rewrite bool_decide_eq_false_2; [done|]. rewrite K1. simpl. congruence. }
  repeat (split; [done|]).
  unfold countWhere. simpl. rewrite !filter_true, length_app. simpl. lia.
Qed.

Lemma saveNew_outcome save body assignee reporter_id db :
  match saveNew save body assignee reporter_id db with
  | Success _ => True
  | Invalid _ _ => False
  | Failed message =>
      message = "Failed to create bug"
      /\ (dueDate_accepted (c_dueDate body) (validated_at save) = false
          \/ schema_accepts save = false)
  end.
Proof.
  unfold saveNew. destruct (dueDate_accepted _ _); simpl; [|by split; [|left]].
  destruct (schema_accepts save); simpl; [done | by split; [|right]].
Qed.


End CreateFacts.

Section DeleteFacts.
Context `{StoreEngine}.

(** X17.  A deletion is answered by the same 400 or 404 as a fetch of the
    identifier; for a bug that exists it succeeds exactly when the
    requester is an admin, a manager or the reporter of the bug, and then
    removes that one bug and nothing else. *)
Theorem delete_is_guarded (user : Requester) (id : string) (db : Store) :
  match deleteBug user id db with
  | Ok200 db' =>
      exists bug, getBug id db = Ok200 bug
        /\ (requester_role user = Admin \/ requester_role user = Manager
            \/ oid_to_string (reporter bug) = requester_id user)
        /\ S (length (bugs db')) = length (bugs db)
        /\ bugs db' `sublist_of` bugs db
        /\ users db' = users db
  | Forbidden403 _ =>
      exists bug, getBug id db = Ok200 bug
        /\ requester_role user <> Admin /\ requester_role user <> Manager
        /\ oid_to_string (reporter bug) <> requester_id user
  | Missing404 message => getBug id db = Missing404 message
  | Bad400 message => getBug id db = Bad400 message
  end.
Proof.
  unfold deleteBug, getBug. destruct (negb (ObjectId_isValid id)); [done|].
  destruct (findByIdString id db) as [bug|] eqn:Hfind; [|done].
  unfold canDelete.
  destruct (decide (requester_role user = Admin)) as [Ha|Ha];
    [rewrite (bool_decide_eq_true_2 _ Ha) | rewrite (bool_decide_eq_false_2 _ Ha)];
  (destruct (decide (requester_role user = Manager)) as [Hm|Hm];
    [rewrite (bool_decide_eq_true_2 _ Hm) | rewrite (bool_decide_eq_false_2 _ Hm)]);
  (destruct (String.eqb_spec (oid_to_string (reporter bug)) (requester_id user)) as [Hr|Hr]);
  simpl.
  all: try (exists bug; split; [done|]; split; [tauto|];
            unfold findByIdString in Hfind;
            destruct (cast_oid id) as [o|]; [|done]; simpl in Hfind;
            apply findById_Some in Hfind as [Hin Hid];
            split; [apply length_remove_first, list_elem_of_In, in_map_iff;
                    exists bug; split; [done | by apply list_elem_of_In]|];
            split; [apply remove_first_sublist | done]).
  exists bug. by repeat split.
Qed.

(** X18.  Where identifiers are unique, a deleted bug is no longer found,
    a second deletion of it answers 404, and every other identifier is
    fetched as before. *)
Theorem deleted_bug_is_gone (user : Requester) (id : string) (db db' : Store) :
  NoDup (map bug_id (bugs db)) ->
  deleteBug user id db = Ok200 db' ->
  getBug id db' = Missing404 "Bug not found"
  /\ (forall other, deleteBug other id db' = Missing404 "Bug not found")
  /\ (forall id', cast_oid id' <> cast_oid id -> getBug id' db' = getBug id' db)
  /\ NoDup (map bug_id (bugs db')).
Proof.
  intros Hnd. unfold deleteBug, getBug.
  destruct (ObjectId_isValid id) eqn:Hvalid; simpl; [|done].
  unfold findByIdString. destruct (cast_oid id) as [o|] eqn:Hcast; simpl.
  2: { unfold ObjectId_isValid in Hvalid. rewrite Hcast in Hvalid.
       apply bool_decide_eq_true_1 in Hvalid. by destruct Hvalid. }
  destruct (findById o db) as [bug|] eqn:Hfind; [|done].
  destruct (negb (canDelete user bug)); [done|]. intros [= <-].
  apply findById_Some in Hfind as [Hin Hid]. rewrite Hid.
  assert (findById o {| bugs := remove_first o (bugs db); users := users db |} = None) as Hgone.
  { unfold findById. simpl. rewrite (find_remove_first o o _ Hnd). by rewrite decide_True. }
  rewrite Hgone. split; [done|]. split; [done|]. split.
  - intros id' Hne. destruct (negb (ObjectId_isValid id')); [done|].
    destruct (cast_oid id') as [o'|]; simpl; [|done].
    unfold findById. simpl. rewrite (find_remove_first o o' _ Hnd).
    rewrite decide_False by congruence. done.
  - simpl. eapply sublist_NoDup; [exact Hnd|].
    apply (fmap_sublist bug_id), remove_first_sublist.
Qed.

End DeleteFacts.

(** X19.  The save hook changes nothing but the resolved timestamp; after
    a save that modified the status the timestamp is present exactly on a
    closed bug; a timestamp already present on a closed bug is kept; and
    running the hook again changes nothing more. *)
Theorem save_hook_settles_the_resolved_timestamp (modified : bool) (now later : Z) (doc : Bug) :
  with_resolvedAt (resolvedAt doc) (pre_save modified now doc) = doc
  /\ (is_Some (resolvedAt (pre_save true now doc)) <-> status doc = Closed)
  /\ (forall t, status doc = Closed /\ resolvedAt doc = Some t
                -> pre_save modified now doc = doc)
  /\ pre_save false now doc = doc
  /\ pre_save modified later (pre_save modified now doc) = pre_save modified now doc.
Proof.
  destruct doc as [i t d p s ty a r res c up]. unfold pre_save. simpl.
  destruct modified, (decide (s = Closed)) as [->|Hs], res as [t0|]; simpl;
    rewrite ?(bool_decide_eq_false_2 (s = Closed)) by done; simpl;
    repeat split; try done; try (by intros [? ?]); try (by eauto);
    try (by intros ? [? ?]).
Qed.

(** ** The overview *)


Lemma ascii_compare_refl a : Ascii.compare a a = Eq.
Proof. unfold Ascii.compare. apply N.compare_refl. Qed.

Lemma string_leb_trans s1 s2 s3 :
  (s1 <=? s2)%string = true -> (s2 <=? s3)%string = true -> (s1 <=? s3)%string = true.
Proof.
  unfold String.leb. revert s2 s3.
  induction s1 as [|a s1 IH]; intros [|b s2] [|c s3]; simpl; try done.
  destruct (Ascii.compare a b) eqn:Hab; [| |done].
  - apply Ascii.compare_eq_iff in Hab as ->.
    destruct (Ascii.compare b c) eqn:Hbc; [apply IH|done|done].
  - destruct (Ascii.compare b c) eqn:Hbc; [| |done].
    + apply Ascii.compare_eq_iff in Hbc as ->. by rewrite Hab.
    + unfold Ascii.compare in *.
      apply N.compare_lt_iff in Hab. apply N.compare_lt_iff in Hbc.
      pose proof (N.lt_trans _ _ _ Hab Hbc) as Hac.
      apply N.compare_lt_iff in Hac. by rewrite Hac.
Qed.

Lemma insert_by_name_perm g l : insert_by_name g l ≡ₚ g :: l.
Proof.
  induction l as [|x r IH]; simpl; [done|].
  destruct (_ <=? _)%string; [done|]. rewrite IH. apply Permutation_swap.
Qed.

Lemma insert_by_name_sorted g l :
  StronglySorted name_le l -> StronglySorted name_le (insert_by_name g l).
Proof.
  induction 1 as [|x r Hsorted IH Hall]; simpl.
  - repeat constructor.
  - destruct (g.1 <=? x.1)%string eqn:Hle.
    + constructor; [by constructor|]. constructor; [exact Hle|].
      eapply Forall_impl; [exact Hall|]. intros y Hy. by eapply string_leb_trans.
    + constructor; [exact IH|]. rewrite insert_by_name_perm. constructor; [|exact Hall].
      unfold name_le. destruct (String.leb_total (x.1) (g.1)); congruence.
Qed.

Lemma sort_by_name l :
  StronglySorted name_le (foldr insert_by_name [] l) /\ foldr insert_by_name [] l ≡ₚ l.
Proof.
  induction l as [|g r [IH1 IH2]]; simpl; [split; [constructor | done]|].
  split; [by apply insert_by_name_sorted|]. by rewrite insert_by_name_perm, IH2.
Qed.

Lemma sum_counts_perm l1 l2 : l1 ≡ₚ l2 -> sum_counts l1 = sum_counts l2.
Proof. induction 1; simpl; lia. Qed.

Lemma chart_facts {K} `{EqDecision K} (name : K -> string) (key : Bug -> K) l :
  (forall a b, name a = name b -> a = b) ->
  StronglySorted name_le (chart name key l)
  /\ NoDup (map fst (chart name key l))
  /\ sum_counts (chart name key l) = Z.of_nat (length l)
  /\ (forall k, name k ∈ map fst (chart name key l) <-> exists b, b ∈ l /\ key b = k).
Proof.
  intros Hinj. unfold chart.
  destruct (sort_by_name (map (fun item : K * Z => (name item.1, item.2)) (groupCount key l)))
    as [Hsorted Hperm].
  destruct (groupCount_keys key l) as (Hnd & _ & Hkeys).
  assert (map fst (map (fun item : K * Z => (name item.1, item.2)) (groupCount key l))
          = map name (map fst (groupCount key l))) as Hnames
    by (rewrite !map_map; done).
  split; [exact Hsorted|]. split; [|split].
  - rewrite Hperm, Hnames. by apply NoDup_map_inj.
  - rewrite (sum_counts_perm _ _ Hperm), sum_counts_named. apply total_groupCount.
  - intros k. rewrite Hperm, Hnames, <- Hkeys. split.
    + intros Hin. apply list_elem_of_In, in_map_iff in Hin as (k' & Heq & Hin).
      apply Hinj in Heq as ->. by apply list_elem_of_In.
    + intros Hin. apply list_elem_of_In, in_map_iff. exists k.
      split; [done | by apply list_elem_of_In].
Qed.

Lemma count_split (p : Bug -> bool) l :
  (length (List.filter (fun b => negb (p b)) l) + length (List.filter p l))%nat = length l.
Proof. induction l as [|b r IH]; simpl; [done|]. destruct (p b); simpl; lia. Qed.

(** X20.  In the overview the open and the closed bugs add up to the
    total; each chart is ordered by name, names no value twice, has an
    entry exactly for the values that occur, and its counts add up to the
    total. *)
Theorem overview_is_consistent (db : Store) :
  let o := statsOverview db in
  ov_openBugs o + ov_closedBugs o = ov_totalBugs o
  /\ ov_totalBugs o = Z.of_nat (length (bugs db))
  /\ (StronglySorted name_le (ov_status o) /\ NoDup (map fst (ov_status o))
      /\ sum_counts (ov_status o) = ov_totalBugs o
      /\ forall s, status_name s ∈ map fst (ov_status o) <-> exists b, b ∈ bugs db /\ status b = s)
  /\ (StronglySorted name_le (ov_priority o) /\ NoDup (map fst (ov_priority o))
      /\ sum_counts (ov_priority o) = ov_totalBugs o
      /\ forall p, priority_name p ∈ map fst (ov_priority o)
                   <-> exists b, b ∈ bugs db /\ priority b = p)
  /\ (StronglySorted name_le (ov_type o) /\ NoDup (map fst (ov_type o))
      /\ sum_counts (ov_type o) = ov_totalBugs o
      /\ forall t, type_name t ∈ map fst (ov_type o) <-> exists b, b ∈ bugs db /\ type b = t).
Proof.
  cbv zeta. unfold statsOverview, countWhere. simpl. rewrite filter_true.
  split; [pose proof (count_split (has_status Closed) (bugs db)); lia|].
  split; [done|].
  split; [apply chart_facts, status_name_inj|].
  split; [apply chart_facts, priority_name_inj|].
  apply chart_facts, type_name_inj.
Qed.

(** X21.  The two handlers count open bugs differently: the overview
    counts every bug that is not closed, the analytics report only those
    whose status is open, so the overview's count is the sum of the
    report's open, in-progress and resolved counts and the reopened bugs. *)
Theorem overview_open_is_not_report_open (tz : JsDate.TimeZone) (clock : Clock) (db : Store) :
  exists r,
    analytics tz clock db = Success r
    /\ ov_closedBugs (statsOverview db) = closedBugs r
    /\ ov_totalBugs (statsOverview db) = totalBugs r
    /\ ov_openBugs (statsOverview db)
       = openBugs r + inProgressBugs r + resolvedBugs r + countWhere (has_status Reopened) db.
Proof.
  eexists. split; [reflexivity|]. simpl. split; [done|]. split; [done|].
  unfold countWhere, has_status. induction (bugs db) as [|b l IH]; simpl; [done|].
  destruct (status b); simpl in *; lia.
Qed.

(** ** Registration names *)

Lemma split_cons sep s : exists h t, Client.split sep s = h :: t.
Proof.
  destruct s as [|c r]; simpl; [by eexists _, _|].
  destruct (Ascii.eqb c sep); [by eexists _, _|].
  destruct (Client.split sep r); by eexists _, _.
Qed.

Lemma join_cons_cons sep x y r : Js.join sep (x :: y :: r) = x +:+ sep +:+ Js.join sep (y :: r).
Proof. done. Qed.

Lemma join_split sep s : Js.join (String sep "") (Client.split sep s) = s.
Proof.
  induction s as [|c r IH]; simpl; [done|].
  destruct (split_cons sep r) as (h & t & Hsplit). rewrite Hsplit in *.
  destruct (Ascii.eqb_spec c sep) as [->|Hne].
  - rewrite join_cons_cons, IH. done.
  - destruct t as [|y t].
    + simpl in *. by rewrite IH.
    + rewrite join_cons_cons. rewrite join_cons_cons in IH. by rewrite <- IH.
Qed.

Lemma split_parts sep s : Forall (fun part => Js.includes sep part = false) (Client.split sep s).
Proof.
  induction s as [|c r IH]; simpl; [by repeat constructor|].
  destruct (split_cons sep r) as (h & t & Hsplit). rewrite Hsplit in *.
  apply Forall_cons in IH as [Hh Ht].
  destruct (Ascii.eqb c sep) eqn:Hc; constructor; try done.
  - by constructor.
  - simpl. by rewrite Hc.
Qed.

Lemma split_no_sep sep s : Js.includes sep s = false -> Client.split sep s = [s].
Proof.
  induction s as [|c r IH]; simpl; [done|].
  destruct (Ascii.eqb c sep); [done|]. intros Hr. by rewrite (IH Hr).
Qed.

Lemma split_at_first sep first rest :
  Js.includes sep first = false ->
  Client.split sep (first +:+ String sep rest) = first :: Client.split sep rest.
Proof.
  induction first as [|c r IH]; simpl.
  - intros _. by rewrite Ascii.eqb_refl.
  - destruct (Ascii.eqb c sep); [done|]. intros Hr. by rewrite (IH Hr).
Qed.

(** X22.  Splitting a text at a separator and joining the parts with it
    gives the text back, and no part holds the separator. *)
Theorem split_then_join (sep : ascii) (s : string) :
  Js.join (String sep "") (Client.split sep s) = s
  /\ Forall (fun part => Js.includes sep part = false) (Client.split sep s)
  /\ Client.split sep s <> [].
Proof.
  split; [apply join_split|]. split; [apply split_parts|].
  destruct (split_cons sep s) as (h & t & ->). done.
Qed.

(** X23.  Registration cuts the name at its first space: what precedes it
    is the first name and everything after it, further spaces included, the
    last name, so that first name, space and last name give the name back.
    A name with nothing after its first space, or with no space, is sent
    with the last name equal to the first name. *)
Theorem register_cuts_at_the_first_space (first : string) :
  Js.includes " " first = false ->
  Client.registerNames first = (first, first)
  /\ Client.registerNames (first +:+ " ") = (first, first)
  /\ forall rest, rest <> "" ->
       Client.registerNames (first +:+ " " +:+ rest) = (first, rest)
       /\ (Client.registerNames (first +:+ " " +:+ rest)).1 +:+ " "
            +:+ (Client.registerNames (first +:+ " " +:+ rest)).2
          = first +:+ " " +:+ rest.
Proof.
  intros Hfirst. unfold Client.registerNames.
  split; [by rewrite (split_no_sep _ _ Hfirst)|].
  split; [by rewrite (split_at_first " " first "" Hfirst)|].
  intros rest Hrest.
  change (first +:+ " " +:+ rest) with (first +:+ String " " rest).
  rewrite (split_at_first " " first rest Hfirst). simpl hd. simpl tl.
  rewrite (join_split " " rest).
  destruct rest as [|c r]; [done|]. done.
Qed.

(** ** Defaults and ignored parameters *)

Section Defaults.
Context `{StoreEngine}.

(** X24.  A listing without a page is the listing of page 1, and one
    without a limit is the listing with limit 10: supplying the defaults
    for the parameters that are absent changes nothing of the response. *)
Theorem listing_defaults (q : gmap string string) (db : Store) :
  listing (<["page" := default "1" (q !! "page")]>
             (<["limit" := default "10" (q !! "limit")]> q)) db
  = listing q db.
Proof.
  set (q' := <["page" := _]> (<["limit" := _]> q)).
  assert (q' !! "page" = Some (default "1" (q !! "page"))) as Hpage
    by (unfold q'; by rewrite lookup_insert_eq).
  assert (q' !! "limit" = Some (default "10" (q !! "limit"))) as Hlimit
    by (unfold q'; rewrite lookup_insert_ne by done; by rewrite lookup_insert_eq).
  assert (forall k, k <> "page" -> k <> "limit" -> q' !! k = q !! k) as Hother
    by (intros k ? ?; unfold q'; by rewrite !lookup_insert_ne).
  assert (Validator.validationResult q' = Validator.validationResult q) as Hvalid.
  { apply validationResult_ext. intros c Hc. simpl in Hc.
    destruct Hc as [<-|[<-|[<-|[<-|[<-|[<-|[<-|[<-|[]]]]]]]]]; unfold Validator.fails; simpl;
      rewrite ?Hpage, ?Hlimit; rewrite ?Hother by done; try done.
    - by destruct (q !! "page").
    - by destruct (q !! "limit"). }
  assert (listFilter q' = listFilter q) as Hfilter.
  { apply listFilter_ext. intros k Hk. apply Hother; not_in_list Hk. }
  unfold listing. rewrite Hvalid, Hfilter, Hpage, Hlimit.
  replace (Js.parseIntOr (Some (default "1" (q !! "page"))) 1)
    with (Js.parseIntOr (q !! "page") 1) by (by destruct (q !! "page")).
  replace (Js.parseIntOr (Some (default "10" (q !! "limit"))) 10)
    with (Js.parseIntOr (q !! "limit") 10) by (by destruct (q !! "limit")).
  done.
Qed.

(** X25.  The export reads only the seven filter parameters: two queries
    that agree on them give the same response, whatever else they hold;
    in particular any page and limit, well formed or not, are ignored. *)
Theorem export_reads_only_the_filter_parameters (q q' : gmap string string) (db : Store) :
  (forall k, k ∈ ["search"; "unassigned"; "assignedTo"; "status"; "priority"; "type"; "reporter"]
             -> q !! k = q' !! k) ->
  exportBugs q db = exportBugs q' db
  /\ forall page limit,
       exportBugs (<["page" := page]> (<["limit" := limit]> q)) db = exportBugs q' db.
Proof.
  intros Hagree.
  assert (forall a b, (forall k, k ∈ ["search"; "unassigned"; "assignedTo"; "status";
                                      "priority"; "type"; "reporter"] -> a !! k = b !! k)
                      -> exportBugs a db = exportBugs b db) as Hext.
  { intros a b Hab. unfold exportBugs, exportRows.
    change (exportFilter a) with (listFilter a). change (exportFilter b) with (listFilter b).
    by rewrite (listFilter_ext a b Hab). }
  split; [by apply Hext|]. intros page limit. apply Hext. intros k Hk.
  assert (k <> "page") by not_in_list Hk. assert (k <> "limit") by not_in_list Hk.
  rewrite !lookup_insert_ne by done. by apply Hagree.
Qed.

End Defaults.

(** ** The statements at the sample store *)

Lemma listing_page_is_sorted_and_matches_witness :
  exists r, @listing fragment_engine Sample.q_limit_one Sample.db = Success r
            /\ StronglySorted newer_first (listed r)
            /\ Z.of_nat (length (listed r)) <= 1.
Proof.
  exists {| listed := [Sample.bug_login]; pagination := paginate 2 1 1 |}.
  split; [reflexivity|].
  destruct (@listing_page_is_sorted_and_matches fragment_engine Sample.q_limit_one Sample.db
              {| listed := [Sample.bug_login]; pagination := paginate 2 1 1 |} eq_refl)
    as (Hsorted & _ & Hsize & _).
  split; [exact Hsorted | exact Hsize].
Defined.

Lemma listing_page_size_witness :
  exists r, @listing fragment_engine Sample.q_page_two Sample.db = Success r
            /\ Z.of_nat (length (listed r)) = 1
            /\ listed r <> [].
Proof.
  exists {| listed := [Sample.bug_abc]; pagination := paginate 2 2 1 |}.
  split; [reflexivity|].
  destruct (@listing_page_size fragment_engine Sample.q_page_two Sample.db
              {| listed := [Sample.bug_abc]; pagination := paginate 2 2 1 |} eq_refl)
    as (Hsize & _ & _ & Hlast).
  split; [exact Hsize | apply Hlast; vm_compute; discriminate].
Defined.

Lemma pages_partition_the_matches_witness :
  concat (map (fun k => listed_of (@listing fragment_engine
                           (<["page" := Js.number_to_string (Z.of_nat k)]> Sample.q_limit_one)
                           Sample.db))
              (seq 1 2))
  = [Sample.bug_login; Sample.bug_abc].
Proof.
  exact (@pages_partition_the_matches fragment_engine Sample.q_limit_one Sample.db
           (fun _ => true) eq_refl eq_refl).
Defined.

Lemma listing_is_a_window_of_the_export_witness :
  exists rows, @exportRows fragment_engine Sample.q_page_two Sample.db = Ok rows
               /\ [Sample.bug_abc] = window 1 1 rows.
Proof.
  destruct (@listing_is_a_window_of_the_export fragment_engine Sample.q_page_two Sample.db
              {| listed := [Sample.bug_abc]; pagination := paginate 2 2 1 |} eq_refl)
    as (rows & Hrows & Hwindow & _).
  exists rows. split; [exact Hrows | exact Hwindow].
Defined.

Lemma client_page_reaches_the_server_witness :
  let q := Client.getBugsParams (Some Sample.filters_open_unassigned) 1 10 in
  Validator.validationResult q = []
  /\ Js.parseIntOr (q !! "page") 1 = 1
  /\ Js.parseIntOr (q !! "limit") 10 = 10.
Proof.
  destruct (@client_page_reaches_the_server fragment_engine
              (Some Sample.filters_open_unassigned) 1 10 Sample.db)
    as (Hvalid & Hpage & Hlimit & _); [lia | lia | reflexivity |].
  split; [exact Hvalid | split; [exact Hpage | exact Hlimit]].
Defined.

Lemma client_envelope_witness :
  totalPages (Client.clientPagination (Client.wire (paginate 0 1 10)) 0) = 1
  /\ totalPages (paginate 0 1 10) = 0.
Proof.
  destruct (client_envelope 0 1 10 0) as (Hpages & _); [lia | lia | lia |].
  split; [exact Hpages | reflexivity].
Defined.

Lemma unknown_enum_value_selects_nothing_witness :
  @exportBugsRaw fragment_engine strings_only (<["status" := QStr "bogus"]> ∅) Sample.db
  = Success csvHeader
  \/ @exportBugsRaw fragment_engine strings_only (<["status" := QStr "bogus"]> ∅) Sample.db
     = Failed "Failed to export bugs".
Proof.
  apply (@unknown_enum_value_selects_nothing fragment_engine strings_only
           (<["status" := QStr "bogus"]> ∅) Sample.db "bogus").
  - discriminate.
  - left. split; [reflexivity|]. apply (bool_decide_unpack _). vm_compute. exact I.
Defined.


Lemma deleted_bug_is_gone_witness :
  @getBug fragment_engine Sample.abc_id (mkStore [Sample.bug_login] [Sample.ann])
  = Missing404 "Bug not found".
Proof.
  apply (@deleted_bug_is_gone fragment_engine Sample.admin Sample.abc_id Sample.db
           (mkStore [Sample.bug_login] [Sample.ann])).
  - apply (bool_decide_unpack _). vm_compute. exact I.
  - reflexivity.
Defined.

Lemma register_cuts_at_the_first_space_witness :
  Client.registerNames "Ann Lee" = ("Ann", "Lee")
  /\ Client.registerNames "Ann" = ("Ann", "Ann").
Proof.
  destruct (register_cuts_at_the_first_space "Ann" eq_refl) as (Hone & _ & Htwo).
  split; [apply (Htwo "Lee"); discriminate | exact Hone].
Defined.

Lemma export_reads_only_the_filter_parameters_witness :
  @exportBugs fragment_engine (<["page" := "0"]> (<["limit" := "many"]> Sample.q_open)) Sample.db
  = @exportBugs fragment_engine Sample.q_open Sample.db.
Proof.
  apply (@export_reads_only_the_filter_parameters fragment_engine Sample.q_open Sample.q_open
           Sample.db).
  intros k _. reflexivity.
Defined.
